(** * keyed: deterministic entropy for a traced child

    A shallow embedding of [keyed.c].  The tracer is a single loop around
    ptrace(2): it resumes the child from stop to stop, takes the stops
    two by two for the entry and the exit of a system call, classifies
    the call, and for reads of the kernel entropy devices and for
    getrandom(2) replaces the kernel's answer by ChaCha20 output.

    The embedding has three layers:
    - machine integers and bytes ([Z] with the C conversions written out);
    - the stream cipher that [crypto_stream_chacha20] of libsodium computes;
    - the trace loop of [main], as a function from the answers of the
      operating system to the sequence of requests the tracer issues. *)

From Stdlib Require Import ZArith Lia.
From stdpp Require Import base list strings.

Open Scope Z_scope.

(** ** Machine integers *)

(** Conversion of an integer value to an unsigned C type of [w] bits. *)
Definition to_unsigned (w z : Z) : Z := z mod 2 ^ w.

(** Conversion to a signed C type of [w] bits (two's complement). *)
Definition to_signed (w z : Z) : Z := (z + 2 ^ (w - 1)) mod 2 ^ w - 2 ^ (w - 1).

Definition c_int (z : Z) : Z := to_signed 32 z.
Definition c_long (z : Z) : Z := to_signed 64 z.
Definition c_ulong (z : Z) : Z := to_unsigned 64 z.

(** Bytes of a C string literal, without and with the terminating NUL. *)
Definition bytes_of_string (s : string) : list Z :=
  map (fun a => Z.of_N (Ascii.N_of_ascii a)) (String.list_ascii_of_string s).

Definition c_literal (s : string) : list Z := bytes_of_string s ++ [0].

(** [memcmp(a, b, n) == 0]: the first [n] bytes of both exist and agree. *)
Definition memcmp_eq (a b : list Z) (n : nat) : bool :=
  bool_decide (take n a = take n b ∧ (n ≤ length a)%nat ∧ (n ≤ length b)%nat).

(** ** ChaCha20 as computed by libsodium's [crypto_stream_chacha20]

    The original construction: a 256-bit key, a 64-bit nonce and a 64-bit
    block counter that starts at zero.  Words are 32 bits, little endian. *)
Module ChaCha20.

Definition add32 (a b : Z) : Z := (a + b) mod 2 ^ 32.

Definition rotl32 (x n : Z) : Z :=
  Z.lor (Z.shiftl x n mod 2 ^ 32) (Z.shiftr x (32 - n)).

Definition LOAD32_LE (src : list Z) (off : nat) : Z :=
  src !!! off
  + Z.shiftl (src !!! (off + 1)%nat) 8
  + Z.shiftl (src !!! (off + 2)%nat) 16
  + Z.shiftl (src !!! (off + 3)%nat) 24.

Definition STORE32_LE (w : Z) : list Z :=
  [ w mod 256; Z.shiftr w 8 mod 256; Z.shiftr w 16 mod 256;
    Z.shiftr w 24 mod 256 ].

Definition QUARTERROUND (a b c d : nat) (x : list Z) : list Z :=
  let xa := x !!! a in let xb := x !!! b in
  let xc := x !!! c in let xd := x !!! d in
  let xa := add32 xa xb in let xd := rotl32 (Z.lxor xd xa) 16 in
  let xc := add32 xc xd in let xb := rotl32 (Z.lxor xb xc) 12 in
  let xa := add32 xa xb in let xd := rotl32 (Z.lxor xd xa) 8 in
  let xc := add32 xc xd in let xb := rotl32 (Z.lxor xb xc) 7 in
  <[d := xd]> (<[c := xc]> (<[b := xb]> (<[a := xa]> x))).

Definition double_round (x : list Z) : list Z :=
  let x := QUARTERROUND 0 4 8 12 x in
  let x := QUARTERROUND 1 5 9 13 x in
  let x := QUARTERROUND 2 6 10 14 x in
  let x := QUARTERROUND 3 7 11 15 x in
  let x := QUARTERROUND 0 5 10 15 x in
  let x := QUARTERROUND 1 6 11 12 x in
  let x := QUARTERROUND 2 7 8 13 x in
  QUARTERROUND 3 4 9 14 x.

(** "expand 32-byte k" *)
Definition sigma : list Z :=
  [ 0x61707865; 0x3320646e; 0x79622d32; 0x6b206574 ].

Definition key_words (k : list Z) : list Z :=
  map (fun i => LOAD32_LE k (4 * i)) (seq 0 8).

(** [chacha_keysetup] and [chacha_ivsetup]: the input block for block
    number [counter] (64 bits, in words 12 and 13) and an 8-byte nonce. *)
Definition input (k : list Z) (counter : Z) (n : list Z) : list Z :=
  sigma ++ key_words k
    ++ [ counter mod 2 ^ 32; (counter / 2 ^ 32) mod 2 ^ 32 ]
    ++ [ LOAD32_LE n 0; LOAD32_LE n 4 ].

(** The IETF layout (RFC 8439): a 32-bit counter and a 12-byte nonce. *)
Definition ietf_input (k : list Z) (counter : Z) (n : list Z) : list Z :=
  sigma ++ key_words k
    ++ [ counter mod 2 ^ 32 ]
    ++ [ LOAD32_LE n 0; LOAD32_LE n 4; LOAD32_LE n 8 ].

(** Twenty rounds, then the feed-forward addition and serialisation. *)
Definition core (j : list Z) : list Z :=
  let x := Nat.iter 10 double_round j in
  concat (map STORE32_LE (zip_with add32 x j)).

Definition block (k : list Z) (counter : Z) (n : list Z) : list Z :=
  core (input k counter n).

Definition ietf_block (k : list Z) (counter : Z) (n : list Z) : list Z :=
  core (ietf_input k counter n).

(** The first [nblocks] blocks of the key stream, counter 0 upwards. *)
Definition blocks (nblocks : nat) (n k : list Z) : list Z :=
  concat (map (fun i => block k (Z.of_nat i) n) (seq 0 nblocks)).

Definition ietf_blocks (nblocks : nat) (n k : list Z) : list Z :=
  concat (map (fun i => ietf_block k (Z.of_nat i) n) (seq 0 nblocks)).

End ChaCha20.

(** libsodium, [crypto_stream_chacha20.h]. *)
Definition crypto_stream_chacha20_KEYBYTES : nat := 32.
Definition crypto_stream_chacha20_NONCEBYTES : nat := 8.
Definition crypto_stream_chacha20_ietf_NONCEBYTES : nat := 12.

(** [crypto_stream_chacha20(c, clen, n, k)]: the bytes stored into
    [c[0 .. clen-1]], always the key stream from its first byte. *)
Definition crypto_stream_chacha20 (clen : Z) (n k : list Z) : list Z :=
  take (Z.to_nat clen) (ChaCha20.blocks (Z.to_nat ((clen + 63) / 64)) n k).

(** The key stream the specification names: IETF ChaCha20 with a
    twelve-byte nonce, from its first byte. *)
Definition crypto_stream_chacha20_ietf (clen : Z) (n k : list Z) : list Z :=
  take (Z.to_nat clen) (ChaCha20.ietf_blocks (Z.to_nat ((clen + 63) / 64)) n k).

(** Bytes [off .. off+len-1] of the key stream under [n] and [k]. *)
Definition keystream_segment (off len : Z) (n k : list Z) : list Z :=
  drop (Z.to_nat off) (crypto_stream_chacha20 (off + len) n k).

(** ** The traced child as the tracer sees it *)

(** The fields of [struct user_regs_struct] (x86-64) that [main] reads or
    writes; each is an [unsigned long long]. *)
Record user_regs_struct : Type := {
  orig_rax : Z;
  rax : Z;
  rdi : Z;
  rsi : Z;
  rdx : Z
}.

Definition set_orig_rax (v : Z) (r : user_regs_struct) : user_regs_struct :=
  {| orig_rax := v; rax := rax r; rdi := rdi r; rsi := rsi r; rdx := rdx r |}.

(** System call numbers of [<syscall.h>] and the register index of
    [<sys/reg.h>] on x86-64, the platform the register names imply. *)
Definition SYS_read : Z := 0.
Definition SYS_open : Z := 2.
Definition SYS_close : Z := 3.
Definition SYS_getpid : Z := 39.
Definition SYS_exit : Z := 60.
Definition SYS_exit_group : Z := 231.
Definition SYS_getrandom : Z := 318.
Definition RAX : Z := 10.

(** Requests of the tracer that change the child.  Diagnostics printed
    under [-v] go to the tracer's own stderr and are left out. *)
Inductive action : Type :=
  | PTRACE_SYSCALL
  | PTRACE_SETREGS (regs : user_regs_struct)
  | process_vm_writev (dest : Z) (len : Z) (data : list Z)
  | PTRACE_POKEUSER (offset : Z) (data : Z).

(** What the operating system answers during one turn of the loop, in
    the order of the calls, as far as the tracer looks at it.  A boolean
    is [false], an option is [None], when the call returns -1 (or
    [malloc] returns NULL): the only test the code makes.

    - [entry_wait] and [exit_wait] say that [waitpid] did not fail.  The
      status it reports is discarded, so the tracer does not know what
      kind of stop it met; [entry_regs] and [exit_regs] are the
      registers of the first and of the second stop of the turn,
      whatever these stops are.
    - [path_bytes] is the content of [path] after a [process_vm_readv]
      that did not return -1, however many bytes it transferred.
    - [writev_ok] says that [process_vm_writev] did not return -1.  The
      number of bytes it transferred is not looked at; it is a
      parameter of [perform]. *)
Record os_responses : Type := {
  entry_resume : bool;
  entry_wait : bool;
  entry_regs : option user_regs_struct;
  path_bytes : option (list Z);
  setregs_ok : bool;
  malloc_ok : bool;
  exit_resume : bool;
  exit_wait : bool;
  writev_ok : bool;
  poke_size_ok : bool;
  exit_regs : option user_regs_struct;
  poke_pid_ok : bool
}.

(** ** An error-and-trace monad for the tracer

    A computation issues requests and either yields a value or ends the
    process: [exit(status)] or [fatal(...)]. *)
Inductive halt : Type :=
  | Exit (status : Z)
  | Fatal (msg : string).

Definition T (A : Type) : Type := list action * (halt + A).

Definition T_ret {A} (a : A) : T A := ([], inr a).

Definition T_bind {A B} (f : A → T B) (m : T A) : T B :=
  match m with
  | (l, inl h) => (l, inl h)
  | (l, inr a) => let '(l', r) := f a in (l ++ l', r)
  end.

#[global] Instance T_mret : MRet T := @T_ret.
#[global] Instance T_mbind : MBind T := @T_bind.

Definition fatal {A} (msg : string) : T A := ([], inl (Fatal msg)).
Definition exit {A} (status : Z) : T A := ([], inl (Exit status)).

(** A call that changes the child: recorded when it succeeds, fatal with
    [strerror(errno)] when it returns -1. *)
Definition issue (a : action) (ok : bool) : T unit :=
  if ok then ([a], inr tt) else fatal "%s".

(** A call that only reports: [waitpid]. *)
Definition expect (ok : bool) : T unit :=
  if ok then mret tt else fatal "%s".

(** [PTRACE_GETREGS] and [process_vm_readv]. *)
Definition receive {A} (r : option A) : T A :=
  match r with Some a => mret a | None => fatal "%s" end.

Definition trace_of {A} (m : T A) : list action := m.1.
Definition outcome_of {A} (m : T A) : halt + A := m.2.

(** ** The tracer *)

Record config : Type := {
  verbose : Z;
  fake_pid : Z;
  key : list Z
}.

(** The locals of [main] that live across turns of the loop. *)
Record tracer : Type := {
  nmonitor : Z;
  monitor_fd : list Z;
  buflen : Z;
  buf : list Z
}.

(** [countof(monitor_fd)] *)
Definition monitor_capacity : Z := 16.

(** The locals set by the [switch] at the first stop of a turn. *)
Record stop_context : Type := {
  size : Z;
  capture_fd : bool;
  dest : Z
}.

Definition no_request : stop_context :=
  {| size := 0; capture_fd := false; dest := 0 |}.

(** The monitored descriptors: the live prefix of the array. *)
Definition monitored (st : tracer) : list Z :=
  take (Z.to_nat (nmonitor st)) (monitor_fd st).

(** [for (int i = ...; i < nmonitor; i++) if (monitor_fd[i] == fd) break;]
    with [n] turns left: the index at which the loop breaks. *)
Fixpoint find_monitor (fds : list Z) (fd : Z) (i n : nat) : option nat :=
  match n with
  | O => None
  | S n' =>
      if decide (fds !!! i = fd) then Some i
      else find_monitor fds fd (S i) n'
  end.

Definition lookup_monitor (st : tracer) (fd : Z) : option nat :=
  find_monitor (monitor_fd st) fd 0 (Z.to_nat (nmonitor st)).

(** [monitor_fd[i] = monitor_fd[--nmonitor];] *)
Definition unmonitor (st : tracer) (i : nat) : tracer :=
  let n := nmonitor st - 1 in
  {| nmonitor := n;
     monitor_fd := <[i := monitor_fd st !!! Z.to_nat n]> (monitor_fd st);
     buflen := buflen st;
     buf := buf st |}.

(** [monitor_fd[nmonitor++] = fd;] *)
Definition monitor (st : tracer) (fd : Z) : tracer :=
  {| nmonitor := nmonitor st + 1;
     monitor_fd := <[Z.to_nat (nmonitor st) := fd]> (monitor_fd st);
     buflen := buflen st;
     buf := buf st |}.

(** The test on the path of an [open]. *)
Definition is_entropy_path (path : list Z) : bool :=
  memcmp_eq path (c_literal "/dev/random") 12
  || memcmp_eq path (c_literal "/dev/urandom") 13.

(** The [switch (syscall)] at the first stop of a turn, which the code
    takes for the entry stop of a system call. *)
Definition classify (os : os_responses) (regs : user_regs_struct)
    (st : tracer) : T (tracer * stop_context) :=
  let syscall := c_long (orig_rax regs) in
  if decide (syscall = SYS_exit ∨ syscall = SYS_exit_group) then
    exit (c_int (rdi regs))
  else if decide (syscall = SYS_open) then
    path ← receive (path_bytes os);
    if is_entropy_path path then
      if decide (nmonitor st = c_int monitor_capacity) then
        fatal "too many open file descriptors"
      else mret (st, {| size := 0; capture_fd := true; dest := 0 |})
    else mret (st, no_request)
  else if decide (syscall = SYS_close) then
    let fd := c_int (rdi regs) in
    match lookup_monitor st fd with
    | Some i => mret (unmonitor st i, no_request)
    | None => mret (st, no_request)
    end
  else if decide (syscall = SYS_read) then
    let fd := c_int (rdi regs) in
    match lookup_monitor st fd with
    | Some _ =>
        mret (st, {| size := c_ulong (rdx regs); capture_fd := false;
                     dest := c_ulong (rsi regs) |})
    | None => mret (st, no_request)
    end
  else if decide (syscall = SYS_getrandom) then
    mret (st, {| size := c_ulong (rsi regs); capture_fd := false;
                 dest := c_ulong (rdi regs) |})
  else mret (st, no_request).

(** [nonce[crypto_stream_chacha20_NONCEBYTES] = {0}] *)
Definition nonce : list Z := replicate crypto_stream_chacha20_NONCEBYTES 0.

(** First stop, [if (size)]: disarm the call and make room in [buf].
    A fresh block from [malloc] holds indeterminate bytes; they are
    overwritten before they are read, and stand here as zeros. *)
Definition disarm (os : os_responses) (regs : user_regs_struct)
    (c : stop_context) (st : tracer) : T tracer :=
  if decide (size c ≠ 0) then
    let regs := set_orig_rax (c_ulong (-1)) regs in
    issue (PTRACE_SETREGS regs) (setregs_ok os);;
    if decide (buflen st < size c) then
      if malloc_ok os then
        mret {| nmonitor := nmonitor st; monitor_fd := monitor_fd st;
                buflen := size c;
                buf := replicate (Z.to_nat (size c)) 0 |}
      else fatal "out of memory"
    else mret st
  else mret st.

(** Second stop, which the code takes for the exit stop, [if (size)]:
    fill [buf], copy it to the child, report the full count. *)
Definition substitute (cfg : config) (os : os_responses)
    (c : stop_context) (st : tracer) : T tracer :=
  if decide (size c ≠ 0) then
    let ks := crypto_stream_chacha20 (size c) nonce (key cfg) in
    let st := {| nmonitor := nmonitor st; monitor_fd := monitor_fd st;
                 buflen := buflen st;
                 buf := ks ++ drop (length ks) (buf st) |} in
    issue (process_vm_writev (dest c) (size c)
             (take (Z.to_nat (size c)) (buf st))) (writev_ok os);;
    issue (PTRACE_POKEUSER (RAX * 8) (size c)) (poke_size_ok os);;
    mret st
  else mret st.

(** Second stop, [if (capture_fd)]. *)
Definition track (os : os_responses) (c : stop_context) (st : tracer)
    : T tracer :=
  if capture_fd c then
    regs ← receive (exit_regs os);
    let fd := c_int (rax regs) in
    mret (monitor st fd)
  else mret st.

(** Second stop, the second [switch (syscall)]. *)
Definition forge_pid (cfg : config) (os : os_responses) (syscall : Z)
    : T unit :=
  if decide (syscall = SYS_getpid) then
    if decide (fake_pid cfg ≠ -1) then
      issue (PTRACE_POKEUSER (RAX * 8) (c_ulong (fake_pid cfg)))
            (poke_pid_ok os)
    else mret tt
  else mret tt.

(** One turn of [for (;;)]. *)
Definition loop_body (cfg : config) (os : os_responses) (st : tracer)
    : T tracer :=
  issue PTRACE_SYSCALL (entry_resume os);;
  expect (entry_wait os);;
  regs ← receive (entry_regs os);
  let syscall := c_long (orig_rax regs) in
  '(st, c) ← classify os regs st;
  st ← disarm os regs c st;
  issue PTRACE_SYSCALL (exit_resume os);;
  expect (exit_wait os);;
  st ← substitute cfg os c st;
  st ← track os c st;
  forge_pid cfg os syscall;;
  mret st.

(** The loop, for as many turns as the operating system answers. *)
Fixpoint run (cfg : config) (oss : list os_responses) (st : tracer)
    : T tracer :=
  match oss with
  | [] => mret st
  | os :: oss' => st' ← loop_body cfg os st; run cfg oss' st'
  end.

(** The locals before the loop: [nmonitor = 0], [buflen = 0], [buf = 0];
    [monitor_fd] is an uninitialised array of sixteen [int]. *)
Definition initial (stack : list Z) : tracer :=
  {| nmonitor := 0; monitor_fd := take 16 (stack ++ replicate 16 0);
     buflen := 0; buf := [] |}.

(** ** Option [-p] *)

Definition is_space (b : Z) : bool :=
  bool_decide (b = 32 ∨ 9 ≤ b ≤ 13).

Definition is_digit (b : Z) : bool := bool_decide (48 ≤ b ≤ 57).

Fixpoint digits_value (acc : Z) (s : list Z) : Z :=
  match s with
  | b :: s' => if is_digit b then digits_value (10 * acc + (b - 48)) s' else acc
  | [] => acc
  end.

Fixpoint skip_space (s : list Z) : list Z :=
  match s with
  | b :: s' => if is_space b then skip_space s' else s
  | [] => []
  end.

(** [strtol(s, 0, 10)], saturating at the range of [long]. *)
Definition strtol10 (s : list Z) : Z :=
  let s := skip_space s in
  let v := match s with
           | 45 :: s' => - digits_value 0 s'
           | 43 :: s' => digits_value 0 s'
           | _ => digits_value 0 s
           end in
  Z.max (- 2 ^ 63) (Z.min (2 ^ 63 - 1) v).

(** [atoi(s)] is [(int) strtol(s, 0, 10)]. *)
Definition atoi (s : list Z) : Z := c_int (strtol10 s).

(** [long fake_pid = -1;] before the options are read. *)
Definition fake_pid_default : Z := -1.

(** [case 'p': fake_pid = optarg ? atoi(optarg) : 2;] *)
Definition option_p (optarg : option string) : Z :=
  match optarg with
  | Some s => atoi (bytes_of_string s)
  | None => 2
  end.

(** ** Vocabulary of the properties *)

(** Every call of one turn that can fail succeeds. *)
Definition cooperative (os : os_responses) : bool :=
  entry_resume os && entry_wait os && setregs_ok os && malloc_ok os
  && exit_resume os && exit_wait os && writev_ok os && poke_size_ok os
  && poke_pid_ok os.

(** The invariant of the descriptor array. *)
Definition tracer_ok (st : tracer) : Prop :=
  0 ≤ nmonitor st ≤ monitor_capacity
  ∧ Z.of_nat (length (monitor_fd st)) = monitor_capacity.

(** An entropy request for [n] bytes at child address [d]: any
    [getrandom], or a [read] on a monitored descriptor. *)
Definition entropy_request (st : tracer) (regs : user_regs_struct)
    (n d : Z) : Prop :=
  (c_long (orig_rax regs) = SYS_getrandom
   ∧ n = c_ulong (rsi regs) ∧ d = c_ulong (rdi regs))
  ∨ (c_long (orig_rax regs) = SYS_read
     ∧ c_int (rdi regs) ∈ monitored st
     ∧ n = c_ulong (rdx regs) ∧ d = c_ulong (rsi regs)).

(** The buffers copied into the child, and their requested lengths. *)
Definition written (a : action) : option (list Z) :=
  match a with process_vm_writev _ _ data => Some data | _ => None end.

Definition requested (a : action) : option Z :=
  match a with process_vm_writev _ len _ => Some len | _ => None end.

Definition delivered (log : list action) : list (list Z) := omap written log.
Definition satisfied (log : list action) : list Z := omap requested log.


(** Conservation of the stream, as the specification words it. *)
Definition stream_conserved (cfg : config) (log : list action) : Prop :=
  concat (delivered log)
  = crypto_stream_chacha20 (foldr Z.add 0 (satisfied log)) nonce (key cfg).

(** [ORIG_RAX] of [<sys/reg.h>]. *)
Definition ORIG_RAX : Z := 15.

(** The [orig_rax] of the child when the tracer next resumes it,
    following the register writes in [log] from [nr]. *)
Fixpoint number_at_resume (nr : Z) (log : list action) : option Z :=
  match log with
  | [] => None
  | PTRACE_SYSCALL :: _ => Some nr
  | PTRACE_SETREGS r :: log' => number_at_resume (orig_rax r) log'
  | PTRACE_POKEUSER off v :: log' =>
      number_at_resume (if decide (off = ORIG_RAX * 8) then v else nr) log'
  | process_vm_writev _ _ _ :: log' => number_at_resume nr log'
  end.

(** The [orig_rax] of the child when the tracer resumes it from the
    first stop of a turn, at which it read [regs], if the turn gets that
    far.  Only when that stop is the entry stop of a system call is this
    the number the kernel then runs. *)
Definition dispatched (regs : user_regs_struct) (log : list action)
    : option Z :=
  match log with
  | PTRACE_SYSCALL :: log' => number_at_resume (orig_rax regs) log'
  | _ => None
  end.

(** The child while it is stopped: its registers and its memory. *)
Record tracee : Type := {
  t_regs : user_regs_struct;
  t_mem : Z → Z
}.

Definition set_rax (v : Z) (r : user_regs_struct) : user_regs_struct :=
  {| orig_rax := orig_rax r; rax := v; rdi := rdi r; rsi := rsi r;
     rdx := rdx r |}.

(** The effect of a request on the stopped child.  Resuming the child
    hands it to the kernel; what happens then is not the tracer's doing.
    [moved] is what a [process_vm_writev] that does not fail returns:
    the number of bytes the kernel transferred, at most [len]. *)
Definition perform (moved : Z) (t : tracee) (a : action) : tracee :=
  match a with
  | PTRACE_SYSCALL => t
  | PTRACE_SETREGS r => {| t_regs := r; t_mem := t_mem t |}
  | process_vm_writev d len data =>
      {| t_regs := t_regs t;
         t_mem := λ a, if decide (d ≤ a < d + Z.min moved len)
                       then data !!! Z.to_nat (a - d) else t_mem t a |}
  | PTRACE_POKEUSER off v =>
      {| t_regs := if decide (off = RAX * 8) then set_rax v (t_regs t)
                   else if decide (off = ORIG_RAX * 8)
                        then set_orig_rax v (t_regs t) else t_regs t;
         t_mem := t_mem t |}
  end.

(** The requests issued since the child was last resumed: after a whole
    turn, those made at its second stop. *)
Definition since_last_resume (log : list action) : list action :=
  foldl (λ acc a, match a with PTRACE_SYSCALL => [] | _ => acc ++ [a] end)
        [] log.

(** The kinds of stop [waitpid] reports for a child resumed with
    [PTRACE_SYSCALL]; the option [PTRACE_O_TRACESYSGOOD] is not set and
    the status is not read, so the tracer cannot tell them apart. *)
Inductive stop_kind : Type :=
  | syscall_entry
  | syscall_exit
  | signal_delivery.

(** A stop of the child and the registers [PTRACE_GETREGS] shows there. *)
Record stop : Type := {
  kind : stop_kind;
  seen : user_regs_struct
}.

(** A turn of the loop in which every call succeeds and whose two stops
    are [s1] and [s2]. *)
Definition turn_of_stops (s1 s2 : stop) : os_responses :=
  {| entry_resume := true; entry_wait := true;
     entry_regs := Some (seen s1); path_bytes := None;
     setregs_ok := true; malloc_ok := true;
     exit_resume := true; exit_wait := true; writev_ok := true;
     poke_size_ok := true; exit_regs := Some (seen s2);
     poke_pid_ok := true |}.

(** The turns of a loop that meets the stops [ss], two to a turn. *)
Fixpoint turns_of_stops (ss : list stop) : list os_responses :=
  match ss with
  | s1 :: s2 :: ss' => turn_of_stops s1 s2 :: turns_of_stops ss'
  | _ => []
  end.

(** The requests up to the next resumption. *)
Fixpoint until_resume (log : list action) : list action :=
  match log with
  | [] => []
  | PTRACE_SYSCALL :: _ => []
  | a :: log' => a :: until_resume log'
  end.

(** The requests after the [n]-th resumption. *)
Fixpoint after_resumes (n : nat) (log : list action) {struct log}
    : list action :=
  match n with
  | O => log
  | S n' =>
      match log with
      | [] => []
      | PTRACE_SYSCALL :: log' => after_resumes n' log'
      | _ :: log' => after_resumes n log'
      end
  end.

(** The requests made while the child is at its [k]-th stop (from 0):
    the stop the [k+1]-th resumption leads to. *)
Definition requests_at_stop (k : nat) (log : list action) : list action :=
  until_resume (after_resumes (S k) log).





(** The bytes [process_vm_readv] finds at the path argument when the
    child passes the C string [s]. *)
Definition reads_c_string (s rest path : list Z) : Prop :=
  Forall (λ b, b ≠ 0) s ∧ path = take 13 (s ++ 0 :: rest)
  ∧ length path = 13%nat.

(** Two tracer states with the same descriptor array. *)
Definition same_descriptors (a b : tracer) : Prop :=
  nmonitor a = nmonitor b ∧ monitor_fd a = monitor_fd b.


(** What a classification that lets the loop go on can be. *)
Inductive classified (os : os_responses) (regs : user_regs_struct)
    (st : tracer) : tracer → stop_context → Prop :=
  | classified_open path :
      c_long (orig_rax regs) = SYS_open →
      path_bytes os = Some path → is_entropy_path path = true →
      nmonitor st ≠ c_int monitor_capacity →
      classified os regs st st
        {| size := 0; capture_fd := true; dest := 0 |}
  | classified_close i :
      c_long (orig_rax regs) = SYS_close →
      lookup_monitor st (c_int (rdi regs)) = Some i →
      classified os regs st (unmonitor st i) no_request
  | classified_request n d :
      c_long (orig_rax regs) = SYS_read
      ∨ c_long (orig_rax regs) = SYS_getrandom →
      0 ≤ n < 2 ^ 64 →
      classified os regs st st
        {| size := n; capture_fd := false; dest := d |}
  | classified_nothing :
      (c_long (orig_rax regs) = SYS_open →
       ∃ path, path_bytes os = Some path ∧ is_entropy_path path = false) →
      (c_long (orig_rax regs) = SYS_close →
       lookup_monitor st (c_int (rdi regs)) = None) →
      classified os regs st st no_request.


(** A buffer copied into the child is the key stream from its first
    byte, as long as the request. *)
Definition from_stream_start (cfg : config) (a : action) : Prop :=
  match a with
  | process_vm_writev _ n data =>
      data = crypto_stream_chacha20 n nonce (key cfg) ∧ 0 < n < 2 ^ 64
  | _ => True
  end.


(** ** Scenarios *)

Definition syscall_regs (nr a0 a1 a2 : Z) : user_regs_struct :=
  {| orig_rax := c_ulong nr; rax := c_ulong (-38);
     rdi := c_ulong a0; rsi := c_ulong a1; rdx := c_ulong a2 |}.

Definition returning (v : Z) (r : user_regs_struct) : user_regs_struct :=
  {| orig_rax := orig_rax r; rax := c_ulong v;
     rdi := rdi r; rsi := rsi r; rdx := rdx r |}.

(** A turn in which every call succeeds: the child stops at entry with
    [regs], an [open] path reads as [path], and the kernel returns [ret]. *)
Definition turn (regs : user_regs_struct) (path : list Z) (ret : Z)
    : os_responses :=
  {| entry_resume := true; entry_wait := true; entry_regs := Some regs;
     path_bytes := Some path; setregs_ok := true; malloc_ok := true;
     exit_resume := true; exit_wait := true; writev_ok := true;
     poke_size_ok := true; exit_regs := Some (returning ret regs);
     poke_pid_ok := true |}.

Definition sample_config : config :=
  {| verbose := 0; fake_pid := fake_pid_default; key := replicate 102 0 |}.

Definition forging_config : config :=
  {| verbose := 0; fake_pid := option_p None; key := replicate 102 0 |}.

Definition getrandom_turn (buf n : Z) : os_responses :=
  turn (syscall_regs SYS_getrandom buf n 0) [] (-38).

Definition read_turn (fd buf n ret : Z) : os_responses :=
  turn (syscall_regs SYS_read fd buf n) [] ret.

Definition open_turn (name : string) (ret : Z) : os_responses :=
  turn (syscall_regs SYS_open 4096 0 0)
       (take 13 (c_literal name ++ replicate 13 0)) ret.

Definition close_turn (fd : Z) : os_responses :=
  turn (syscall_regs SYS_close fd 0 0) [] 0.

Definition getpid_turn (pid : Z) : os_responses :=
  turn (syscall_regs SYS_getpid 0 0 0) [] pid.

Definition write_turn (fd buf n : Z) : os_responses :=
  turn (syscall_regs 1 fd buf n) [] n.

(** A tracer that monitors descriptor 3. *)
Definition monitoring_3 : tracer :=
  {| nmonitor := 1; monitor_fd := 3 :: replicate 15 0;
     buflen := 0; buf := [] |}.

(** Sixteen opens of [/dev/urandom] returning descriptors 3 to 18, and
    the tracer after them. *)
Definition sixteen_opens : list os_responses :=
  map (open_turn "/dev/urandom") (seqZ 3 16).

Definition full_tracer : tracer :=
  {| nmonitor := 16; monitor_fd := seqZ 3 16; buflen := 0; buf := [] |}.


(** ** The passphrase *)

Definition PASSPHRASE_MAX : nat := 1024.

(** The C string a [char] array holds: the bytes before the first NUL. *)
Fixpoint c_string (buf : list Z) : list Z :=
  match buf with
  | [] => []
  | b :: buf' => if decide (b = 0) then [] else b :: c_string buf'
  end.

(** The scan [for (; s < buf + r; s++)] that breaks at a newline, with
    [n] turns left: the index [s] stops at. *)
Fixpoint find_newline (buf : list Z) (i n : nat) : nat :=
  match n with
  | O => i
  | S n' =>
      if decide (buf !!! i = 10) then i else find_newline buf (S i) n'
  end.

(** The scan followed by [*s = 0;]. *)
Definition terminate_line (buf : list Z) (r : nat) : list Z :=
  <[find_newline buf 0 r := 0]> buf.

(** The array after [read] or [fread] stored [n] bytes of [input]. *)
Definition store_input (input buf : list Z) (n : nat) : list Z :=
  take n input ++ drop n buf.

(** The bytes of an input before its first newline or NUL. *)
Fixpoint first_line (input : list Z) : list Z :=
  match input with
  | [] => []
  | b :: input' =>
      if decide (b = 10 ∨ b = 0) then [] else b :: first_line input'
  end.

(** What is done to the terminal. *)
Inductive tty_action : Type :=
  | tty_open
  | tcsetattr (echo : bool)
  | tty_write (bytes : list Z)
  | tty_close.

(** The answers of the terminal to one [get_passphrase]: whether [open]
    and the two [write]s succeed, the ECHO flag [tcgetattr] reports, and
    the bytes [read] has to offer ([None] when it returns -1). *)
Record tty_responses : Type := {
  tty_opens : bool;
  tty_echo : bool;
  prompt_written : bool;
  tty_input : option (list Z);
  newline_written : bool
}.

(** [get_passphrase(buf, len, prompt)]: the requests made to the
    terminal, and the array on return. *)
Definition get_passphrase (tty : tty_responses) (buf : list Z) (len : nat)
    (prompt : list Z) : list tty_action * (halt + list Z) :=
  if negb (tty_opens tty) then ([], inl (Fatal "/dev/tty: %s"))
  else
    let log := [tty_open; tcsetattr false] in
    if negb (prompt_written tty) then (log, inl (Fatal "/dev/tty: %s"))
    else
      let log := log ++ [tty_write prompt] in
      match tty_input tty with
      | None => (log, inl (Fatal "/dev/tty: %s"))
      | Some input =>
          let r := (length input `min` len)%nat in
          let buf := store_input input buf r in
          if decide (r = len) then (log, inl (Fatal "passphrase too long"))
          else
            let buf := terminate_line buf r in
            let log := log ++ [tcsetattr (tty_echo tty)] in
            if negb (newline_written tty)
            then (log, inl (Fatal "/dev/tty: %s"))
            else (log ++ [tty_write [10]; tty_close], inr buf)
      end.

(** The ECHO flag of the terminal after a sequence of requests. *)
Definition echo_after (echo : bool) (log : list tty_action) : bool :=
  foldl (λ e a, match a with tcsetattr e' => e' | _ => e end) echo log.

(** [strcmp(a, b) == 0] *)
Definition strcmp_eq (a b : list Z) : bool :=
  bool_decide (c_string a = c_string b).

(** The confirmation loop of [main], with [n] turns left; [tty i] answers
    the [i]-th call of [get_passphrase]. *)
Fixpoint confirm (tty : nat → tty_responses) (passphrase check : list Z)
    (i n : nat) : list tty_action * (halt + list Z) :=
  match n with
  | O => ([], inr passphrase)
  | S n' =>
      match get_passphrase (tty i) check PASSPHRASE_MAX
              (bytes_of_string "passphrase (again): ") with
      | (log, inl h) => (log, inl h)
      | (log, inr check) =>
          if strcmp_eq passphrase check then
            let '(log', r) := confirm tty passphrase check (S i) n' in
            (log ++ log', r)
          else (log, inl (Fatal "passphrases don't match"))
      end
  end.

(** The [else] branch of [main]: prompt, then [passphrase_repeat]
    confirmations.  [passphrase] and [check] are the arrays as found. *)
Definition prompt_passphrase (tty : nat → tty_responses)
    (passphrase_repeat : Z) (passphrase check : list Z)
    : list tty_action * (halt + list Z) :=
  match get_passphrase (tty O) passphrase PASSPHRASE_MAX
          (bytes_of_string "passphrase: ") with
  | (log, inl h) => (log, inl h)
  | (log, inr passphrase) =>
      let '(log', r) :=
        confirm tty passphrase check 1 (Z.to_nat passphrase_repeat) in
      (log ++ log', r)
  end.

(** The answers of the C library for the key file: whether [fopen]
    succeeds, the bytes the stream yields before its end or an error,
    and [ferror] afterwards. *)
Record file_responses : Type := {
  fopen_ok : bool;
  fread_bytes : list Z;
  ferror_set : bool
}.

(** The [if (keyfile)] branch of [main]. *)
Definition load_passphrase (f : file_responses) (passphrase : list Z)
    : halt + list Z :=
  if negb (fopen_ok f) then inl (Fatal "%s")
  else
    let n := (length (fread_bytes f) `min` PASSPHRASE_MAX)%nat in
    let passphrase := store_input (fread_bytes f) passphrase n in
    if bool_decide (n = O) && ferror_set f
    then inl (Fatal "failed to read passphrase: %s")
    else if decide (n = PASSPHRASE_MAX) then inl (Fatal "passphase too long")
    else inr (terminate_line passphrase n).

(** ** The options *)

(** What [getopt(argc, argv, "+hk:n:p::v")] returns, with [optarg]. *)
Inductive getopt_result : Type :=
  | opt_h
  | opt_k (optarg : string)
  | opt_n (optarg : string)
  | opt_p (optarg : option string)
  | opt_v
  | opt_unknown.

(** The locals of [main] the options set. *)
Record options : Type := {
  o_verbose : Z;
  o_keyfile : option string;
  o_fake_pid : Z;
  o_passphrase_repeat : Z
}.

Definition default_options : options :=
  {| o_verbose := 0; o_keyfile := None; o_fake_pid := fake_pid_default;
     o_passphrase_repeat := 1 |}.

Definition EXIT_SUCCESS : Z := 0.
Definition EXIT_FAILURE : Z := 1.

(** The [switch (option)]. *)
Definition set_option (g : getopt_result) (o : options) : halt + options :=
  match g with
  | opt_h => inl (Exit EXIT_SUCCESS)
  | opt_k file =>
      inr {| o_verbose := o_verbose o; o_keyfile := Some file;
             o_fake_pid := o_fake_pid o;
             o_passphrase_repeat := o_passphrase_repeat o |}
  | opt_n arg =>
      inr {| o_verbose := o_verbose o; o_keyfile := o_keyfile o;
             o_fake_pid := o_fake_pid o;
             o_passphrase_repeat := c_int (strtol10 (bytes_of_string arg)) |}
  | opt_p arg =>
      inr {| o_verbose := o_verbose o; o_keyfile := o_keyfile o;
             o_fake_pid := option_p arg;
             o_passphrase_repeat := o_passphrase_repeat o |}
  | opt_v =>
      inr {| o_verbose := c_int (o_verbose o + 1); o_keyfile := o_keyfile o;
             o_fake_pid := o_fake_pid o;
             o_passphrase_repeat := o_passphrase_repeat o |}
  | opt_unknown => inl (Exit EXIT_FAILURE)
  end.

(** The [while ((option = getopt(...)) != -1)] loop. *)
Fixpoint parse_options (gs : list getopt_result) (o : options)
    : halt + options :=
  match gs with
  | [] => inr o
  | g :: gs' =>
      match set_option g o with
      | inl h => inl h
      | inr o' => parse_options gs' o'
      end
  end.

(** How [main] obtains the passphrase once the options are read. *)
Definition read_passphrase (o : options) (f : file_responses)
    (tty : nat → tty_responses) (passphrase check : list Z)
    : list tty_action * (halt + list Z) :=
  match o_keyfile o with
  | Some _ => ([], load_passphrase f passphrase)
  | None => prompt_passphrase tty (o_passphrase_repeat o) passphrase check
  end.

(** A terminal on which every call succeeds and [read] offers [input]. *)
Definition tty_answers (tty : tty_responses) (input : list Z) : Prop :=
  tty_opens tty = true ∧ prompt_written tty = true
  ∧ tty_input tty = Some input ∧ newline_written tty = true.

(** An option that ends the parsing. *)
Definition stops_parsing (g : getopt_result) : Prop :=
  g = opt_h ∨ g = opt_unknown.

(** ** Further scenarios *)

(** The stop for the delivery of a signal while the child runs its own
    code: it is in no system call, and [orig_rax] reads -1. *)
Definition signal_stop : stop :=
  {| kind := signal_delivery;
     seen := {| orig_rax := c_ulong (-1); rax := 0; rdi := 0; rsi := 0;
                rdx := 0 |} |}.

Definition entry_of (nr a0 a1 a2 : Z) : stop :=
  {| kind := syscall_entry; seen := syscall_regs nr a0 a1 a2 |}.

Definition exit_of (nr a0 a1 a2 ret : Z) : stop :=
  {| kind := syscall_exit; seen := returning ret (syscall_regs nr a0 a1 a2) |}.

(** The child calls [getrandom(4096, 16, 0)], receives a signal, calls
    [getrandom(8192, 16, 0)] and then [write(1, 8192, 16)]. *)
Definition signal_between_getrandoms : list stop :=
  [ entry_of SYS_getrandom 4096 16 0; exit_of (-1) 4096 16 0 (-38);
    signal_stop;
    entry_of SYS_getrandom 8192 16 0; exit_of SYS_getrandom 8192 16 0 16;
    entry_of 1 1 8192 16 ].

(** The child receives a signal, calls [getpid()], which returns 4242,
    and then [write(1, 4096, 5)]. *)
Definition signal_before_getpid : list stop :=
  [ signal_stop;
    entry_of SYS_getpid 0 0 0; exit_of SYS_getpid 0 0 0 4242;
    entry_of 1 1 4096 5 ].

(** The child receives a signal and calls [exit_group(0)]. *)
Definition signal_before_exit : list stop :=
  [ signal_stop; entry_of SYS_exit_group 0 0 0 ].

(** A child stopped with registers [r] whose memory holds zeros. *)
Definition blank_child (r : user_regs_struct) : tracee :=
  {| t_regs := r; t_mem := λ _, 0 |}.

Definition exit_turn (status : Z) : os_responses :=
  turn (syscall_regs SYS_exit status 0 0) [] 0.

Definition two_requests : list os_responses :=
  [getrandom_turn 4096 16; getrandom_turn 4096 8].

Definition after_two_requests : tracer :=
  {| nmonitor := 0; monitor_fd := replicate 16 0; buflen := 16;
     buf := crypto_stream_chacha20 16 nonce (key sample_config) |}.

(** The line a user types, or a key file holds. *)
Definition secret_line : list Z := bytes_of_string "secret" ++ [10].

(** A terminal with echo on at which [input] is typed. *)
Definition typing (input : string) : tty_responses :=
  {| tty_opens := true; tty_echo := true; prompt_written := true;
     tty_input := Some (bytes_of_string input ++ [10]);
     newline_written := true |}.

(** A key file with the given content. *)
Definition file_holding (content : list Z) : file_responses :=
  {| fopen_ok := true; fread_bytes := content; ferror_set := false |}.

Definition stack_garbage : list Z := replicate PASSPHRASE_MAX 65.

(** ** Proof automation *)

Ltac sys_unfold :=
  unfold SYS_read, SYS_open, SYS_close, SYS_getpid, SYS_exit,
    SYS_exit_group, SYS_getrandom, monitor_capacity in *.

(** Skip the [case] labels that the system call number rules out. *)
Ltac sys_skip := repeat (case_decide; [exfalso; sys_unfold; lia|]).

(** * Properties *)

#[global] Arguments crypto_stream_chacha20 : simpl never.
#[global] Arguments c_int : simpl never.
#[global] Arguments c_long : simpl never.
#[global] Arguments c_ulong : simpl never.
#[global] Arguments Z.mul : simpl never.

(** ** The key stream *)

Example chacha20_zero_key_vector :
  crypto_stream_chacha20 16 (replicate 8 0) (replicate 32 0)
  = [ 0x76; 0xb8; 0xe0; 0xad; 0xa0; 0xf1; 0x3d; 0x90;
      0x40; 0x5d; 0x6a; 0xe5; 0x53; 0x86; 0xbd; 0x28 ].
Proof. vm_compute. reflexivity. Qed.

Module ChaCha20Facts.
Import ChaCha20.

Lemma length_QUARTERROUND a b c d x :
  length (QUARTERROUND a b c d x) = length x.
Proof. unfold QUARTERROUND. cbv zeta. by rewrite !length_insert. Qed.

Lemma length_double_round x : length (double_round x) = length x.
Proof. unfold double_round. cbv zeta. by rewrite !length_QUARTERROUND. Qed.

Lemma length_rounds n x : length (Nat.iter n double_round x) = length x.
Proof.
  induction n as [|n IH]; [done|].
  rewrite Nat.iter_succ, length_double_round. exact IH.
Qed.

Lemma length_serialise (ws : list Z) :
  length (concat (map STORE32_LE ws)) = (4 * length ws)%nat.
Proof. induction ws as [|w ws IH]; simpl; [done|]. rewrite IH. lia. Qed.

Lemma length_core j : length (core j) = (4 * length j)%nat.
Proof.
  unfold core. cbv zeta.
  rewrite length_serialise, length_zip_with, length_rounds. lia.
Qed.

Lemma length_block k c n : length (block k c n) = 64%nat.
Proof. unfold block. rewrite length_core. unfold input. rewrite !length_app. unfold key_words. rewrite length_map, length_seq. reflexivity. Qed.

Lemma blocks_S m n k :
  blocks (S m) n k = blocks m n k ++ block k (Z.of_nat m) n.
Proof.
  unfold blocks. rewrite seq_S, map_app, concat_app.
  cbn [map concat Nat.add]. by rewrite app_nil_r.
Qed.

Lemma length_blocks m n k : length (blocks m n k) = (64 * m)%nat.
Proof.
  induction m as [|m IH]; [done|].
  rewrite blocks_S, length_app, IH, length_block. lia.
Qed.

Lemma blocks_prefix m m' n k :
  (m ≤ m')%nat → blocks m n k = take (64 * m) (blocks m' n k).
Proof.
  induction 1 as [|m' Hle IH].
  - by rewrite <- (length_blocks m n k), take_ge.
  - rewrite blocks_S, take_app_le by (rewrite length_blocks; lia). exact IH.
Qed.

Lemma blocks_needed (clen : Z) :
  (Z.to_nat clen ≤ 64 * Z.to_nat ((clen + 63) / 64))%nat.
Proof.
  pose proof (Z.mod_pos_bound (clen + 63) 64).
  pose proof (Z.div_mod (clen + 63) 64). lia.
Qed.

Lemma length_crypto_stream_chacha20 clen n k :
  length (crypto_stream_chacha20 clen n k) = Z.to_nat clen.
Proof.
  unfold crypto_stream_chacha20.
  rewrite length_take, length_blocks. pose proof (blocks_needed clen). lia.
Qed.

(** Any sufficient number of blocks gives the same bytes. *)
Lemma crypto_stream_chacha20_blocks clen m n k :
  (Z.to_nat clen ≤ 64 * m)%nat →
  crypto_stream_chacha20 clen n k = take (Z.to_nat clen) (blocks m n k).
Proof.
  intros Hm. unfold crypto_stream_chacha20.
  pose proof (blocks_needed clen) as Hb.
  destruct (Nat.le_ge_cases m (Z.to_nat ((clen + 63) / 64))) as [Hle|Hle].
  - rewrite (blocks_prefix _ _ n k Hle), take_take. f_equal. lia.
  - rewrite (blocks_prefix _ _ n k Hle), take_take. f_equal. lia.
Qed.

(** A shorter request returns a prefix of a longer one. *)
Lemma crypto_stream_chacha20_prefix a b n k :
  0 ≤ a ≤ b →
  crypto_stream_chacha20 a n k = take (Z.to_nat a) (crypto_stream_chacha20 b n k).
Proof.
  intros Hab.
  rewrite (crypto_stream_chacha20_blocks a (Z.to_nat ((b + 63) / 64))).
  - unfold crypto_stream_chacha20. rewrite take_take. f_equal. lia.
  - pose proof (blocks_needed b). lia.
Qed.

Lemma keystream_segment_0 len n k :
  keystream_segment 0 len n k = crypto_stream_chacha20 len n k.
Proof. reflexivity. Qed.

Lemma LOAD32_LE_take (k : list Z) (m off : nat) :
  (off + 3 < m)%nat → LOAD32_LE (take m k) off = LOAD32_LE k off.
Proof.
  intros H. unfold LOAD32_LE.
  rewrite !list_lookup_total_alt, !lookup_take_lt by lia. reflexivity.
Qed.

Lemma key_words_take k :
  key_words (take crypto_stream_chacha20_KEYBYTES k) = key_words k.
Proof.
  unfold key_words. apply map_ext_in. intros i Hi. apply in_seq in Hi.
  apply LOAD32_LE_take. unfold crypto_stream_chacha20_KEYBYTES. lia.
Qed.

Lemma block_key_prefix k c n :
  block (take crypto_stream_chacha20_KEYBYTES k) c n = block k c n.
Proof. unfold block, input. by rewrite key_words_take. Qed.

Lemma crypto_stream_chacha20_key_prefix clen n k :
  crypto_stream_chacha20 clen n (take crypto_stream_chacha20_KEYBYTES k)
  = crypto_stream_chacha20 clen n k.
Proof.
  unfold crypto_stream_chacha20, blocks. do 2 f_equal.
  apply map_ext. intros i. apply block_key_prefix.
Qed.

Lemma input_zero_nonce_ietf k c :
  0 ≤ c < 2 ^ 32 →
  input k c (replicate 8 0) = ietf_input k c (replicate 12 0).
Proof.
  intros Hc. unfold input, ietf_input.
  rewrite (Z.div_small c) by lia. reflexivity.
Qed.

Lemma blocks_zero_nonce_ietf m k :
  Z.of_nat m ≤ 2 ^ 32 →
  blocks m (replicate 8 0) k = ietf_blocks m (replicate 12 0) k.
Proof.
  intros Hm. unfold blocks, ietf_blocks. apply (f_equal (@concat Z)).
  apply map_ext_in. intros i Hi. apply in_seq in Hi.
  unfold block, ietf_block. rewrite input_zero_nonce_ietf; [done|lia].
Qed.

Lemma crypto_stream_chacha20_zero_nonce_ietf clen k :
  clen ≤ 2 ^ 38 →
  crypto_stream_chacha20 clen (replicate 8 0) k
  = crypto_stream_chacha20_ietf clen (replicate 12 0) k.
Proof.
  intros H. unfold crypto_stream_chacha20, crypto_stream_chacha20_ietf.
  rewrite blocks_zero_nonce_ietf; [done|].
  pose proof (Z.mod_pos_bound (clen + 63) 64).
  pose proof (Z.div_mod (clen + 63) 64). lia.
Qed.

End ChaCha20Facts.

(** ** The monad *)

Lemma T_bind_ret {A B} (a : A) (f : A → T B) : (mret a ≫= f) = f a.
Proof.
  unfold mbind, mret, T_mbind, T_mret, T_bind, T_ret.
  by destruct (f a).
Qed.

Lemma T_bind_halt {A B} l h (f : A → T B) : ((l, inl h) ≫= f) = (l, inl h).
Proof. reflexivity. Qed.

Lemma T_bind_cons {A B} l (a : A) (f : A → T B) :
  ((l, inr a) ≫= f) = (l ++ trace_of (f a), outcome_of (f a)).
Proof.
  unfold mbind, T_mbind, T_bind, trace_of, outcome_of. by destruct (f a).
Qed.

(** A bind that yields a value: both halves yield values. *)
Lemma T_bind_inr {A B} (m : T A) (f : A → T B) l b :
  (m ≫= f) = (l, inr b) →
  ∃ l1 a l2, m = (l1, inr a) ∧ f a = (l2, inr b) ∧ l = l1 ++ l2.
Proof.
  destruct m as [l1 [h|a]]; [discriminate|].
  rewrite T_bind_cons. destruct (f a) as [l2 r] eqn:E.
  unfold trace_of, outcome_of. simpl. intros [= <- ->]. eauto 6.
Qed.

Lemma trace_of_bind {A B} (m : T A) (f : A → T B) :
  trace_of (m ≫= f)
  = trace_of m ++ match outcome_of m with
                  | inr a => trace_of (f a)
                  | inl _ => []
                  end.
Proof.
  destruct m as [l [h|a]]; unfold trace_of, outcome_of; simpl.
  - by rewrite app_nil_r.
  - by destruct (f a).
Qed.

Lemma outcome_of_bind {A B} (m : T A) (f : A → T B) :
  outcome_of (m ≫= f)
  = match outcome_of m with
    | inr a => outcome_of (f a)
    | inl h => inl h
    end.
Proof.
  destruct m as [l [h|a]]; unfold outcome_of; simpl; [done|].
  by destruct (f a).
Qed.

(** ** Machine integers *)

Lemma c_ulong_range z : 0 ≤ c_ulong z < 2 ^ 64.
Proof. unfold c_ulong, to_unsigned. apply Z.mod_pos_bound. lia. Qed.

Lemma c_long_minus_one : c_long (c_ulong (-1)) = -1.
Proof. reflexivity. Qed.

Lemma c_long_c_ulong z : c_long (c_ulong z) = c_long z.
Proof.
  unfold c_long, c_ulong, to_signed, to_unsigned.
  rewrite Zplus_mod_idemp_l. reflexivity.
Qed.

Lemma c_long_small z : - 2 ^ 63 ≤ z < 2 ^ 63 → c_long z = z.
Proof.
  intros H. unfold c_long, to_signed.
  rewrite Z.mod_small; lia.
Qed.

(** ** The switch at the entry stop *)

Lemma classify_getrandom os regs st :
  c_long (orig_rax regs) = SYS_getrandom →
  classify os regs st
  = mret (st, {| size := c_ulong (rsi regs); capture_fd := false;
                 dest := c_ulong (rdi regs) |}).
Proof.
  intros H. unfold classify. cbv zeta. rewrite H.
  sys_skip. case_decide; done.
Qed.

Lemma classify_read os regs st :
  c_long (orig_rax regs) = SYS_read →
  classify os regs st
  = match lookup_monitor st (c_int (rdi regs)) with
    | Some _ =>
        mret (st, {| size := c_ulong (rdx regs); capture_fd := false;
                     dest := c_ulong (rsi regs) |})
    | None => mret (st, no_request)
    end.
Proof.
  intros H. unfold classify. cbv zeta. rewrite H.
  sys_skip. case_decide; done.
Qed.

Lemma classify_close os regs st :
  c_long (orig_rax regs) = SYS_close →
  classify os regs st
  = match lookup_monitor st (c_int (rdi regs)) with
    | Some i => mret (unmonitor st i, no_request)
    | None => mret (st, no_request)
    end.
Proof.
  intros H. unfold classify. cbv zeta. rewrite H.
  sys_skip. case_decide; done.
Qed.

Lemma classify_open os regs st :
  c_long (orig_rax regs) = SYS_open →
  classify os regs st
  = (path ← receive (path_bytes os);
     if is_entropy_path path then
       if decide (nmonitor st = c_int monitor_capacity) then
         fatal "too many open file descriptors"
       else mret (st, {| size := 0; capture_fd := true; dest := 0 |})
     else mret (st, no_request)).
Proof.
  intros H. unfold classify. cbv zeta. rewrite H.
  sys_skip. case_decide; done.
Qed.

Lemma classify_exit os regs st :
  c_long (orig_rax regs) = SYS_exit ∨ c_long (orig_rax regs) = SYS_exit_group →
  classify os regs st = exit (c_int (rdi regs)).
Proof. intros H. unfold classify. cbv zeta. case_decide; done. Qed.

Lemma classify_other os regs st :
  c_long (orig_rax regs) ≠ SYS_exit →
  c_long (orig_rax regs) ≠ SYS_exit_group →
  c_long (orig_rax regs) ≠ SYS_open →
  c_long (orig_rax regs) ≠ SYS_close →
  c_long (orig_rax regs) ≠ SYS_read →
  c_long (orig_rax regs) ≠ SYS_getrandom →
  classify os regs st = mret (st, no_request).
Proof.
  intros. unfold classify. cbv zeta.
  repeat (case_decide; [exfalso; tauto|]). done.
Qed.

(** ** The descriptor array *)

Lemma find_monitor_Some fds fd i n j :
  find_monitor fds fd i n = Some j →
  (i ≤ j < i + n)%nat ∧ fds !!! j = fd.
Proof.
  revert i. induction n as [|n IH]; intros i; simpl; [done|].
  case_decide as Hd.
  - intros [= <-]. split; [lia|done].
  - intros H. apply IH in H. split; [lia|tauto].
Qed.

Lemma find_monitor_None fds fd i n :
  find_monitor fds fd i n = None →
  ∀ j, (i ≤ j < i + n)%nat → fds !!! j ≠ fd.
Proof.
  revert i. induction n as [|n IH]; intros i; simpl; [lia|].
  case_decide as Hd; [done|].
  intros H j Hj. destruct (decide (j = i)) as [->|Hne]; [done|].
  apply (IH (S i) H). lia.
Qed.

Lemma elem_of_monitored st fd :
  fd ∈ monitored st ↔
  ∃ j, (j < Z.to_nat (nmonitor st))%nat ∧ monitor_fd st !! j = Some fd.
Proof.
  unfold monitored. rewrite list_elem_of_lookup. split.
  - intros [j Hj]. exists j.
    destruct (decide (j < Z.to_nat (nmonitor st))%nat) as [Hlt|Hge].
    + by rewrite lookup_take_lt in Hj.
    + rewrite lookup_take_ge in Hj by lia. done.
  - intros (j & Hlt & Hj). exists j. by rewrite lookup_take_lt.
Qed.

Lemma lookup_monitor_hit st fd :
  fd ∈ monitored st → is_Some (lookup_monitor st fd).
Proof.
  rewrite elem_of_monitored. intros (j & Hlt & Hj).
  unfold lookup_monitor.
  destruct (find_monitor _ _ _ _) as [i|] eqn:E; [eauto|].
  exfalso. eapply (find_monitor_None _ _ _ _ E j); [lia|].
  by rewrite list_lookup_total_alt, Hj.
Qed.

Lemma lookup_monitor_Some st fd i :
  tracer_ok st → lookup_monitor st fd = Some i →
  (i < Z.to_nat (nmonitor st))%nat ∧ monitor_fd st !! i = Some fd.
Proof.
  intros [Hn Hlen] H. apply find_monitor_Some in H as [Hi Hfd].
  split; [lia|].
  unfold monitor_capacity in *.
  destruct (lookup_lt_is_Some_2 (monitor_fd st) i) as [x Hx]; [lia|].
  rewrite list_lookup_total_alt, Hx in Hfd. simpl in Hfd. by subst.
Qed.

Lemma lookup_monitor_None st fd :
  lookup_monitor st fd = None → fd ∉ monitored st.
Proof.
  intros H. rewrite elem_of_monitored. intros (j & Hlt & Hj).
  eapply (find_monitor_None _ _ _ _ H j); [lia|].
  by rewrite list_lookup_total_alt, Hj.
Qed.


(** ** One turn of the loop *)


Lemma cooperative_flags os :
  cooperative os = true →
  entry_resume os = true ∧ entry_wait os = true ∧ setregs_ok os = true
  ∧ malloc_ok os = true ∧ exit_resume os = true ∧ exit_wait os = true
  ∧ writev_ok os = true ∧ poke_size_ok os = true ∧ poke_pid_ok os = true.
Proof. unfold cooperative. rewrite !andb_true_iff. tauto. Qed.

Lemma entropy_request_classify os st regs n d :
  entropy_request st regs n d →
  classify os regs st
  = mret (st, {| size := n; capture_fd := false; dest := d |})
  ∧ c_long (orig_rax regs) ≠ SYS_getpid.
Proof.
  intros [(Hnr & -> & ->)|(Hnr & Hfd & -> & ->)].
  - split; [by apply classify_getrandom|]. rewrite Hnr. done.
  - split; [|rewrite Hnr; done].
    rewrite classify_read by done.
    by destruct (lookup_monitor_hit _ _ Hfd) as [i ->].
Qed.

Lemma take_filled (ks old : list Z) (n : nat) :
  length ks = n → take n (ks ++ drop (length ks) old) = ks.
Proof. intros <-. by rewrite take_app_length. Qed.

Lemma loop_body_entropy_request cfg os st regs n d :
  cooperative os = true → entry_regs os = Some regs →
  entropy_request st regs n d → n ≠ 0 →
  ∃ st',
    loop_body cfg os st
    = ([ PTRACE_SYSCALL;
         PTRACE_SETREGS (set_orig_rax (c_ulong (-1)) regs);
         PTRACE_SYSCALL;
         process_vm_writev d n (crypto_stream_chacha20 n nonce (key cfg));
         PTRACE_POKEUSER (RAX * 8) n ], inr st')
    ∧ Z.of_nat (length (crypto_stream_chacha20 n nonce (key cfg))) = n
    ∧ monitored st' = monitored st.
Proof.
  intros Hos Hregs Hreq Hn.
  apply cooperative_flags in Hos
    as (H1 & H2 & H3 & H4 & H5 & H6 & H7 & H8 & H9).
  destruct (entropy_request_classify os _ _ _ _ Hreq) as [Hc Hpid].
  unfold loop_body. rewrite H1, H2, Hregs. simpl. rewrite Hc. simpl.
  unfold disarm, substitute, track, forge_pid. simpl.
  rewrite H3, H4, H5, H6, H7, H8.
  assert (Hlen : length (crypto_stream_chacha20 n nonce (key cfg)) = Z.to_nat n)
    by apply ChaCha20Facts.length_crypto_stream_chacha20.
  assert (0 ≤ n < 2 ^ 64).
  { destruct Hreq as [(_ & -> & _)|(_ & _ & -> & _)]; apply c_ulong_range. }
  destruct (decide (n ≠ 0)) as [_|?]; [|done].
  destruct (decide (c_long (orig_rax regs) = SYS_getpid)) as [?|_]; [done|].
  destruct (decide (buflen st < n)); simpl;
    rewrite take_filled by done;
    (eexists; split; [reflexivity|]; split; [lia|reflexivity]).
Qed.

Lemma entropy_request_range st regs n d :
  entropy_request st regs n d → 0 ≤ n < 2 ^ 64.
Proof. intros [(_ & -> & _)|(_ & _ & -> & _)]; apply c_ulong_range. Qed.

Lemma disarmed_before_resume cfg os st regs n d :
  entry_regs os = Some regs → entropy_request st regs n d → n ≠ 0 →
  (∀ nr, dispatched regs (trace_of (loop_body cfg os st)) = Some nr →
     nr = c_ulong (-1) ∧ c_long nr = -1)
  ∧ (cooperative os = true →
     dispatched regs (trace_of (loop_body cfg os st)) = Some (c_ulong (-1))).
Proof.
  intros Hregs Hreq Hn.
  destruct (entropy_request_classify os _ _ _ _ Hreq) as [Hc Hpid].
  assert (Hdis : dispatched regs (trace_of (loop_body cfg os st)) = None
                 ∨ dispatched regs (trace_of (loop_body cfg os st))
                   = Some (c_ulong (-1))
                   ).
  { unfold loop_body. rewrite Hregs.
    destruct (entry_resume os); [|by left].
    destruct (entry_wait os); [|by left]. simpl. rewrite Hc. simpl.
    unfold disarm. simpl.
    destruct (decide (n ≠ 0)) as [_|?]; [|done].
    destruct (setregs_ok os); [|by left]. simpl.
    destruct (decide (buflen st < n)); [destruct (malloc_ok os); [|by left]|];
      simpl; (destruct (exit_resume os); [|by left]);
      destruct (exit_wait os); simpl; try (by right);
      match goal with |- context [substitute ?a ?b ?c ?d] =>
        destruct (substitute a b c d) as [? [?|?]] end; simpl; try (by right);
      match goal with |- context [forge_pid ?a ?b ?c] =>
        destruct (forge_pid a b c) as [? [?|?]] end; simpl; by right. }
  split.
  - intros nr Hnr. destruct Hdis as [Hd|Hd]; rewrite Hd in Hnr; [done|].
    by injection Hnr as <-.
  - intros Hos. destruct (loop_body_entropy_request cfg os st regs n d)
      as (st' & -> & _); done.
Qed.


Lemma zero_length_passes cfg os st regs d :
  entry_regs os = Some regs → entropy_request st regs 0 d →
  Forall (λ a, a = PTRACE_SYSCALL) (trace_of (loop_body cfg os st))
  ∧ (∀ st', outcome_of (loop_body cfg os st) = inr st' → st' = st)
  ∧ (cooperative os = true →
     loop_body cfg os st = ([PTRACE_SYSCALL; PTRACE_SYSCALL], inr st)
     ∧ dispatched regs (trace_of (loop_body cfg os st))
       = Some (orig_rax regs)).
Proof.
  intros Hregs Hreq.
  destruct (entropy_request_classify os _ _ _ _ Hreq) as [Hc Hpid].
  assert (Hsame : ∀ cfg' os',
    entry_regs os' = Some regs →
    loop_body cfg' os' st
    = (issue PTRACE_SYSCALL (entry_resume os');;
        expect (entry_wait os');;
        issue PTRACE_SYSCALL (exit_resume os');;
        expect (exit_wait os');; mret st)).
  { intros cfg' os' Hr. unfold loop_body. rewrite Hr.
    destruct (entry_resume os'); [|done].
    destruct (entry_wait os'); [|done]. simpl.
    destruct (entropy_request_classify os' _ _ _ _ Hreq) as [-> _]. simpl.
    unfold disarm, substitute, track, forge_pid. simpl.
    destruct (decide (c_long (orig_rax regs) = SYS_getpid)) as [?|_]; [done|].
    destruct (exit_resume os'); [|done].
    by destruct (exit_wait os'). }
  rewrite Hsame by done. unfold cooperative.
  destruct (entry_resume os), (entry_wait os), (exit_resume os),
    (exit_wait os); simpl; rewrite ?andb_false_r;
    (split; [repeat constructor|split; [by intros ? [=]|by intros [=]]]).
Qed.

Lemma classify_getpid os regs st :
  c_long (orig_rax regs) = SYS_getpid →
  classify os regs st = mret (st, no_request).
Proof. intros H. apply classify_other; rewrite H; done. Qed.

Lemma forge_pid_other cfg os nr :
  nr ≠ SYS_getpid → forge_pid cfg os nr = mret ().
Proof. intros H. unfold forge_pid. by case_decide. Qed.

Lemma T_bind_ext {A B} (m : T A) (f g : A → T B) :
  (∀ a, f a = g a) → (m ≫= f) = (m ≫= g).
Proof.
  intros H. destruct m as [l [h|a]]; [done|].
  unfold mbind, T_mbind, T_bind. by rewrite H.
Qed.

Lemma substitute_key cfg cfg' os c st :
  key cfg' = key cfg → substitute cfg' os c st = substitute cfg os c st.
Proof. intros H. unfold substitute. by rewrite H. Qed.

(** Apart from [getpid], a turn does not depend on [fake_pid]. *)
Lemma loop_body_fake_pid_irrelevant cfg cfg' os st :
  key cfg' = key cfg →
  (∀ regs, entry_regs os = Some regs → c_long (orig_rax regs) ≠ SYS_getpid) →
  loop_body cfg' os st = loop_body cfg os st.
Proof.
  intros Hkey Hnr. unfold loop_body.
  destruct (entry_regs os) as [regs|] eqn:Hregs; [|done].
  specialize (Hnr regs eq_refl).
  do 2 (apply T_bind_ext; intros _).
  unfold receive. rewrite !T_bind_ret.
  apply T_bind_ext; intros [st1 c].
  apply T_bind_ext; intros st2.
  do 2 (apply T_bind_ext; intros _).
  rewrite (substitute_key cfg cfg') by done.
  apply T_bind_ext; intros st3.
  apply T_bind_ext; intros st4.
  by rewrite !(forge_pid_other _ _ _ Hnr).
Qed.

Lemma pid_forgery cfg os st regs :
  fake_pid cfg ≠ -1 →
  cooperative os = true → entry_regs os = Some regs →
  c_long (orig_rax regs) = SYS_getpid →
  loop_body cfg os st
  = ([ PTRACE_SYSCALL; PTRACE_SYSCALL;
       PTRACE_POKEUSER (RAX * 8) (c_ulong (fake_pid cfg)) ], inr st).
Proof.
  intros Hpid Hos Hregs Hnr.
  apply cooperative_flags in Hos
    as (H1 & H2 & H3 & H4 & H5 & H6 & H7 & H8 & H9).
  unfold loop_body. rewrite H1, H2, Hregs. simpl.
  rewrite (classify_getpid _ _ _ Hnr). simpl.
  unfold disarm, substitute, track, forge_pid. simpl.
  rewrite H5, H6, H9.
  destruct (decide (c_long (orig_rax regs) = SYS_getpid)); [|done].
  destruct (decide (fake_pid cfg ≠ -1)); done.
Qed.

(** ** The phases of a turn *)


Lemma same_descriptors_ok a b :
  same_descriptors a b → tracer_ok b → tracer_ok a.
Proof. intros [Hn Hf]. unfold tracer_ok. by rewrite Hn, Hf. Qed.

Lemma issue_inr a ok l u : issue a ok = (l, inr u) → ok = true ∧ l = [a].
Proof. destruct ok; simpl; [|done]. by intros [= <-]. Qed.

Lemma expect_inr ok l u : expect ok = (l, inr u) → ok = true ∧ l = [].
Proof. destruct ok; simpl; [|done]. by intros [= <-]. Qed.

Lemma receive_inr {A} (r : option A) l a :
  receive r = (l, inr a) → r = Some a ∧ l = [].
Proof. destruct r; simpl; [|done]. by intros [= <- <-]. Qed.

Lemma unmonitor_ok st i :
  tracer_ok st → (i < Z.to_nat (nmonitor st))%nat → tracer_ok (unmonitor st i).
Proof.
  intros [Hn Hlen] Hi. unfold tracer_ok, unmonitor. simpl.
  rewrite length_insert. lia.
Qed.

Lemma monitor_ok st fd :
  tracer_ok st → nmonitor st ≠ c_int monitor_capacity →
  tracer_ok (monitor st fd).
Proof.
  intros [Hn Hlen] Hfull. unfold tracer_ok, monitor. simpl.
  rewrite length_insert. change (c_int monitor_capacity) with 16 in Hfull.
  unfold monitor_capacity in *. lia.
Qed.

Lemma classify_inr os regs st l st1 c :
  classify os regs st = (l, inr (st1, c)) →
  l = [] ∧ classified os regs st st1 c.
Proof.
  unfold classify. cbv zeta.
  case_decide as Hexit; [done|].
  case_decide as Hopen.
  { destruct (path_bytes os) as [path|] eqn:Hp; [|done]. simpl.
    destruct (is_entropy_path path) eqn:He.
    - case_decide as Hfull; [done|]. intros [= <- <- <-].
      split; [done|]. by eapply classified_open.
    - intros [= <- <- <-]. split; [done|]. apply classified_nothing.
      + eauto.
      + rewrite Hopen. done. }
  case_decide as Hclose.
  { destruct (lookup_monitor st (c_int (rdi regs))) as [i|] eqn:Hi;
      intros [= <- <- <-]; (split; [done|]).
    - by apply classified_close with (i := i).
    - by apply classified_nothing. }
  case_decide as Hread.
  { destruct (lookup_monitor st (c_int (rdi regs))) as [i|] eqn:Hi;
      intros [= <- <- <-]; (split; [done|]).
    - apply classified_request; [by left|apply c_ulong_range].
    - by apply classified_nothing. }
  case_decide as Hrand.
  { intros [= <- <- <-]. split; [done|].
    apply classified_request; [by right|apply c_ulong_range]. }
  intros [= <- <- <-]. split; [done|]. by apply classified_nothing.
Qed.

Lemma disarm_inr os regs c st l st1 :
  disarm os regs c st = (l, inr st1) → same_descriptors st1 st.
Proof.
  unfold disarm. case_decide; [|by intros [= <- <-]].
  destruct (setregs_ok os); [|done]. simpl.
  case_decide; [|by intros [= <- <-]].
  destruct (malloc_ok os); [|done]. by intros [= <- <-].
Qed.

Lemma substitute_inr cfg os c st l st1 :
  substitute cfg os c st = (l, inr st1) → same_descriptors st1 st.
Proof.
  unfold substitute. case_decide; [|by intros [= <- <-]].
  destruct (writev_ok os); [|done]. simpl.
  destruct (poke_size_ok os); [|done]. by intros [= <- <-].
Qed.

Lemma track_inr os c st l st1 :
  track os c st = (l, inr st1) →
  l = [] ∧
  if capture_fd c
  then ∃ r, exit_regs os = Some r ∧ st1 = monitor st (c_int (rax r))
  else st1 = st.
Proof.
  unfold track. destruct (capture_fd c); [|by intros [= <- <-]].
  destruct (exit_regs os) as [r|]; [|done]. simpl.
  intros [= <- <-]. eauto.
Qed.

(** A turn that lets the loop go on, phase by phase. *)
Lemma loop_body_inr cfg os st l st' :
  loop_body cfg os st = (l, inr st') →
  ∃ regs st1 c st2,
    entry_regs os = Some regs
    ∧ classified os regs st st1 c
    ∧ same_descriptors st2 st1
    ∧ if capture_fd c
      then ∃ r, exit_regs os = Some r ∧ st' = monitor st2 (c_int (rax r))
      else st' = st2.
Proof.
  unfold loop_body. intros H.
  apply T_bind_inr in H as (l1 & [] & l2 & _ & H & _).
  apply T_bind_inr in H as (l3 & [] & l4 & _ & H & _).
  apply T_bind_inr in H as (l5 & regs & l6 & Hregs & H & _).
  apply receive_inr in Hregs as [Hregs _].
  apply T_bind_inr in H as (l7 & [st1 c] & l8 & Hc & H & _).
  apply classify_inr in Hc as [_ Hc].
  apply T_bind_inr in H as (l9 & st2 & l10 & Hd & H & _).
  apply disarm_inr in Hd.
  apply T_bind_inr in H as (? & [] & ? & _ & H & _).
  apply T_bind_inr in H as (? & [] & ? & _ & H & _).
  apply T_bind_inr in H as (? & st3 & ? & Hs & H & _).
  apply substitute_inr in Hs.
  apply T_bind_inr in H as (? & st4 & ? & Ht & H & _).
  apply track_inr in Ht as [_ Ht].
  apply T_bind_inr in H as (? & [] & ? & _ & H & _).
  injection H as _ ->.
  exists regs, st1, c, st3. split; [done|]. split; [done|].
  split; [destruct Hs, Hd; split; congruence|]. done.
Qed.

(** ** The descriptor array stays within bounds *)

Lemma classified_ok os regs st st1 c :
  classified os regs st st1 c → tracer_ok st →
  tracer_ok st1
  ∧ (capture_fd c = true → nmonitor st1 ≠ c_int monitor_capacity).
Proof.
  intros [path Hnr Hp He Hfull|i Hnr Hi|n d Hnr Hn|Ho Hc] Hok; try done.
  split; [|done]. apply unmonitor_ok; [done|].
  apply find_monitor_Some in Hi. lia.
Qed.

Lemma loop_body_ok cfg os st l st' :
  loop_body cfg os st = (l, inr st') → tracer_ok st → tracer_ok st'.
Proof.
  intros H Hok.
  apply loop_body_inr in H as (regs & st1 & c & st2 & _ & Hc & Hs & Ht).
  destruct (classified_ok _ _ _ _ _ Hc Hok) as [Hok1 Hfull].
  pose proof (same_descriptors_ok _ _ Hs Hok1) as Hok2.
  destruct (capture_fd c).
  - destruct Ht as (r & _ & ->). apply monitor_ok; [done|].
    destruct Hs as [-> _]. by apply Hfull.
  - by subst.
Qed.

Lemma run_cons cfg os oss st :
  run cfg (os :: oss) st = (loop_body cfg os st ≫= run cfg oss).
Proof. reflexivity. Qed.

Lemma run_ok cfg oss st l st' :
  run cfg oss st = (l, inr st') → tracer_ok st → tracer_ok st'.
Proof.
  revert st l. induction oss as [|os oss IH]; intros st l.
  - by intros [= <- <-].
  - rewrite run_cons. intros H Hok.
    apply T_bind_inr in H as (l1 & st1 & l2 & H1 & H2 & _).
    eapply IH; [done|]. by eapply loop_body_ok.
Qed.

Lemma initial_ok stack : tracer_ok (initial stack).
Proof.
  unfold tracer_ok, initial, monitor_capacity. cbn [nmonitor monitor_fd].
  rewrite length_take, length_app, length_replicate. lia.
Qed.

Lemma length_monitored st :
  tracer_ok st → Z.of_nat (length (monitored st)) = nmonitor st.
Proof.
  intros [Hn Hlen]. unfold monitored. rewrite length_take. lia.
Qed.

(** An entropy device is opened while sixteen descriptors are monitored:
    the tracer stops before the child runs the call. *)
Lemma loop_body_full cfg os st regs path :
  entry_resume os = true → entry_wait os = true →
  entry_regs os = Some regs → c_long (orig_rax regs) = SYS_open →
  path_bytes os = Some path → is_entropy_path path = true →
  nmonitor st = monitor_capacity →
  loop_body cfg os st
  = ([PTRACE_SYSCALL], inl (Fatal "too many open file descriptors")).
Proof.
  intros H1 H2 Hregs Hnr Hp He Hfull.
  unfold loop_body. rewrite H1, H2, Hregs. simpl.
  rewrite (classify_open _ _ _ Hnr), Hp. simpl. rewrite He.
  by destruct (decide (nmonitor st = c_int monitor_capacity)).
Qed.

Lemma monitor_bounded cfg oss stack :
  match outcome_of (run cfg oss (initial stack)) with
  | inr st =>
      0 ≤ nmonitor st ≤ monitor_capacity
      ∧ Z.of_nat (length (monitored st)) = nmonitor st
  | inl _ => True
  end.
Proof.
  destruct (run cfg oss (initial stack)) as [l [h|st]] eqn:E; simpl; [done|].
  pose proof (run_ok _ _ _ _ _ E (initial_ok stack)) as Hok.
  split; [apply Hok|by apply length_monitored].
Qed.

(** ** What is copied into the child *)

Lemma Forall_trace_bind {A B} (P : action → Prop) (m : T A) (f : A → T B) :
  Forall P (trace_of m) →
  (∀ a, outcome_of m = inr a → Forall P (trace_of (f a))) →
  Forall P (trace_of (m ≫= f)).
Proof.
  intros Hm Hf. rewrite trace_of_bind. apply Forall_app. split; [done|].
  destruct (outcome_of m) as [h|a]; [constructor|]. by apply Hf.
Qed.

Lemma Forall_trace_issue (P : action → Prop) a ok :
  P a → Forall P (trace_of (issue a ok)).
Proof. intros H. destruct ok; repeat constructor; done. Qed.

Lemma Forall_trace_expect (P : action → Prop) ok :
  Forall P (trace_of (expect ok)).
Proof. destruct ok; constructor. Qed.

Lemma Forall_trace_receive {A} (P : action → Prop) (r : option A) :
  Forall P (trace_of (receive r)).
Proof. destruct r; constructor. Qed.

Lemma trace_of_classify os regs st : trace_of (classify os regs st) = [].
Proof.
  unfold classify. cbv zeta.
  destruct (decide (_ ∨ _)); [done|].
  destruct (decide (_ = SYS_open)).
  { destruct (path_bytes os) as [p|]; [|done].
    unfold receive. rewrite T_bind_ret.
    destruct (is_entropy_path p); [|done]. by case_decide. }
  destruct (decide (_ = SYS_close)).
  { by destruct (lookup_monitor st _). }
  destruct (decide (_ = SYS_read)).
  { by destruct (lookup_monitor st _). }
  by case_decide.
Qed.

Lemma classify_size os regs st st1 c :
  outcome_of (classify os regs st) = inr (st1, c) → 0 ≤ size c < 2 ^ 64.
Proof.
  destruct (classify os regs st) as [l [h|[st1' c']]] eqn:E; [done|].
  intros [= -> ->]. apply classify_inr in E as [_ Hc].
  destruct Hc; simpl; lia.
Qed.

Lemma substitute_from_stream_start cfg os c st :
  0 ≤ size c < 2 ^ 64 →
  Forall (from_stream_start cfg) (trace_of (substitute cfg os c st)).
Proof.
  intros Hn. unfold substitute. case_decide as Hz; [|constructor].
  cbv zeta. cbn [buf].
  rewrite take_filled by apply ChaCha20Facts.length_crypto_stream_chacha20.
  apply Forall_trace_bind.
  - apply Forall_trace_issue. simpl. split; [done|lia].
  - intros _ _. apply Forall_trace_bind; [by apply Forall_trace_issue|].
    intros _ _. constructor.
Qed.

Lemma loop_body_from_stream_start cfg os st :
  Forall (from_stream_start cfg) (trace_of (loop_body cfg os st)).
Proof.
  unfold loop_body.
  apply Forall_trace_bind; [by apply Forall_trace_issue|]. intros _ _.
  apply Forall_trace_bind; [apply Forall_trace_expect|]. intros _ _.
  apply Forall_trace_bind; [apply Forall_trace_receive|]. intros regs _.
  apply Forall_trace_bind; [rewrite trace_of_classify; constructor|].
  intros [st1 c] Hc. apply classify_size in Hc.
  apply Forall_trace_bind.
  { unfold disarm. case_decide; [|constructor].
    apply Forall_trace_bind; [by apply Forall_trace_issue|]. intros _ _.
    case_decide; [|constructor]. destruct (malloc_ok os); constructor. }
  intros st2 _.
  apply Forall_trace_bind; [by apply Forall_trace_issue|]. intros _ _.
  apply Forall_trace_bind; [apply Forall_trace_expect|]. intros _ _.
  apply Forall_trace_bind; [by apply substitute_from_stream_start|].
  intros st3 _.
  apply Forall_trace_bind.
  { unfold track. destruct (capture_fd c); [|constructor].
    apply Forall_trace_bind; [apply Forall_trace_receive|]. constructor. }
  intros st4 _.
  apply Forall_trace_bind; [|constructor].
  unfold forge_pid. case_decide; [|constructor].
  case_decide; [|constructor]. by apply Forall_trace_issue.
Qed.

Lemma run_from_stream_start cfg oss st :
  Forall (from_stream_start cfg) (trace_of (run cfg oss st)).
Proof.
  revert st. induction oss as [|os oss IH]; intros st; [constructor|].
  rewrite run_cons. apply Forall_trace_bind.
  - apply loop_body_from_stream_start.
  - intros st' _. apply IH.
Qed.

Lemma delivered_cons a log :
  delivered (a :: log)
  = match written a with
    | Some data => data :: delivered log
    | None => delivered log
    end.
Proof. reflexivity. Qed.

Lemma satisfied_cons a log :
  satisfied (a :: log)
  = match requested a with
    | Some n => n :: satisfied log
    | None => satisfied log
    end.
Proof. reflexivity. Qed.

Lemma delivered_app l1 l2 : delivered (l1 ++ l2) = delivered l1 ++ delivered l2.
Proof. apply omap_app. Qed.

Lemma satisfied_app l1 l2 : satisfied (l1 ++ l2) = satisfied l1 ++ satisfied l2.
Proof. apply omap_app. Qed.

Lemma delivered_from_stream_start cfg log :
  Forall (from_stream_start cfg) log →
  delivered log
  = map (λ n, crypto_stream_chacha20 n nonce (key cfg)) (satisfied log)
  ∧ Forall (λ n, 0 < n < 2 ^ 64) (satisfied log).
Proof.
  induction 1 as [|a log Ha _ [IH1 IH2]]; [by split; [|constructor]|].
  rewrite delivered_cons, satisfied_cons.
  destruct a as [|r|d n data|off v]; simpl; try done.
  destruct Ha as [-> Hn]. rewrite IH1. split; [done|by constructor].
Qed.

(** ** Which descriptors are monitored *)


Lemma monitored_unmonitor st i fd :
  tracer_ok st → (i < Z.to_nat (nmonitor st))%nat →
  monitor_fd st !! i = Some fd →
  monitored st ≡ₚ fd :: monitored (unmonitor st i).
Proof.
  intros [Hn Hlen] Hi Hfd. unfold monitor_capacity in *.
  unfold monitored, unmonitor. cbn [nmonitor monitor_fd].
  set (l := monitor_fd st) in *.
  set (m := Z.to_nat (nmonitor st - 1)).
  replace (Z.to_nat (nmonitor st)) with (S m) in * by lia.
  destruct (lookup_lt_is_Some_2 l m) as [x Hx]; [lia|].
  rewrite (list_lookup_total_correct _ _ _ Hx).
  rewrite (take_S_r _ _ _ Hx).
  destruct (decide (i = m)) as [->|Hne].
  - rewrite take_insert_ge by lia. replace x with fd by congruence.
    by rewrite Permutation_app_comm.
  - rewrite take_insert_lt by lia.
    assert (Hp : take m l !! i = Some fd) by (rewrite lookup_take_lt; [done|lia]).
    rewrite <- (take_drop_middle _ _ _ Hp) at 1.
    rewrite insert_take_drop by (rewrite length_take; lia).
    generalize (take i (take m l)) (drop (S i) (take m l)). intros A B.
    rewrite <- app_assoc. simpl. rewrite <- Permutation_middle.
    apply perm_skip, Permutation_app_head.
    rewrite <- Permutation_cons_append. done.
Qed.










(** ** The path of an [open] *)

(** A C string whose bytes up to and including the NUL agree with those
    of a literal is that literal. *)
Lemma c_string_matches_literal (s r rest : list Z) :
  Forall (λ b, b ≠ 0) s → Forall (λ b, b ≠ 0) r →
  take (S (length r)) (s ++ 0 :: rest) = r ++ [0] → s = r.
Proof.
  intros Hs. revert r. induction Hs as [|b s Hb Hs IH]; intros r Hr.
  - destruct Hr as [|a r Ha Hr]; [done|]. simpl. intros [= <-]. done.
  - destruct Hr as [|a r Ha Hr]; simpl.
    + intros [= ->]. done.
    + intros [= -> H]. f_equal. by apply IH.
Qed.

Lemma memcmp_eq_true a b n :
  memcmp_eq a b n = true
  ↔ take n a = take n b ∧ (n ≤ length a)%nat ∧ (n ≤ length b)%nat.
Proof. unfold memcmp_eq. apply bool_decide_eq_true. Qed.

Lemma random_literal_nonzero :
  Forall (λ b, b ≠ 0) (bytes_of_string "/dev/random").
Proof. repeat constructor; done. Qed.

Lemma urandom_literal_nonzero :
  Forall (λ b, b ≠ 0) (bytes_of_string "/dev/urandom").
Proof. repeat constructor; done. Qed.

Lemma is_entropy_path_c_string s rest path :
  reads_c_string s rest path →
  is_entropy_path path = true
  ↔ s = bytes_of_string "/dev/random" ∨ s = bytes_of_string "/dev/urandom".
Proof.
  intros (Hs & Hpath & Hlen). unfold is_entropy_path.
  rewrite orb_true_iff, !memcmp_eq_true. split.
  - intros [(H & _ & _)|(H & _ & _)]; [left|right].
    + apply (c_string_matches_literal s _ rest Hs random_literal_nonzero).
      rewrite Hpath, take_take in H. exact H.
    + apply (c_string_matches_literal s _ rest Hs urandom_literal_nonzero).
      rewrite Hpath, take_take in H. exact H.
  - intros [->| ->]; [left|right]; rewrite Hpath, take_take;
      (split; [reflexivity|split; [rewrite <- Hpath; lia|simpl; lia]]).
Qed.

(** * The stated properties *)

(** ** Conservation of the stream *)

(** Scenario S2: two [getrandom(buf, 16, 0)] in a row deliver the same
    sixteen bytes twice. *)
Example two_getrandom_calls :
  delivered (trace_of (run sample_config
                         [getrandom_turn 4096 16; getrandom_turn 8192 16]
                         (initial [])))
  = [ keystream_segment 0 16 nonce (key sample_config);
      keystream_segment 0 16 nonce (key sample_config) ]
  ∧ keystream_segment 0 16 nonce (key sample_config)
    ≠ keystream_segment 16 16 nonce (key sample_config).
Proof. split; [vm_compute; reflexivity|vm_compute; discriminate]. Qed.

(** C1, as stated, fails: after two [getrandom] calls of 16 bytes the
    bytes delivered are not the first 32 bytes of the key stream. *)
Lemma stream_not_conserved :
  ¬ stream_conserved sample_config
      (trace_of (run sample_config
                   [getrandom_turn 4096 16; getrandom_turn 8192 16]
                   (initial []))).
Proof. unfold stream_conserved. vm_compute. discriminate. Qed.

Lemma entropy_request_same_descriptors st st' regs n d :
  monitored st' = monitored st →
  entropy_request st regs n d → entropy_request st' regs n d.
Proof. unfold entropy_request. by intros ->. Qed.

(** Two entropy requests in consecutive turns. *)
Lemma run_two_entropy_requests cfg os1 os2 st r1 r2 n1 d1 n2 d2 :
  cooperative os1 = true → entry_regs os1 = Some r1 →
  entropy_request st r1 n1 d1 → n1 ≠ 0 →
  cooperative os2 = true → entry_regs os2 = Some r2 →
  entropy_request st r2 n2 d2 → n2 ≠ 0 →
  delivered (trace_of (run cfg [os1; os2] st))
  = [ crypto_stream_chacha20 n1 nonce (key cfg);
      crypto_stream_chacha20 n2 nonce (key cfg) ].
Proof.
  intros Hos1 Hr1 Hq1 Hn1 Hos2 Hr2 Hq2 Hn2.
  destruct (loop_body_entropy_request cfg os1 st r1 n1 d1)
    as (st1 & Heq1 & _ & Hm1); try done.
  destruct (loop_body_entropy_request cfg os2 st1 r2 n2 d2)
    as (st2 & Heq2 & _ & _); try done.
  { by apply (entropy_request_same_descriptors st). }
  rewrite run_cons, Heq1, T_bind_cons, !run_cons, Heq2, !T_bind_cons.
  reflexivity.
Qed.

(** C1 (amended): across a run every substitution delivers the key
    stream under the key from its first byte: the buffers delivered are,
    in order, bytes [0 .. n-1] of the stream for each satisfied request
    size [n]; the stream does not advance from one call to the next.  In
    particular, of two consecutive entropy requests of sizes [n1] and
    [n2] the second delivers bytes [0 .. n2-1]. *)
Theorem stream_restarts_every_call cfg oss st :
  delivered (trace_of (run cfg oss st))
  = map (λ n, keystream_segment 0 n nonce (key cfg))
        (satisfied (trace_of (run cfg oss st)))
  ∧ Forall (λ n, 0 < n < 2 ^ 64) (satisfied (trace_of (run cfg oss st)))
  ∧ ∀ os1 os2 r1 r2 n1 d1 n2 d2,
      oss = [os1; os2] →
      cooperative os1 = true → entry_regs os1 = Some r1 →
      entropy_request st r1 n1 d1 → n1 ≠ 0 →
      cooperative os2 = true → entry_regs os2 = Some r2 →
      entropy_request st r2 n2 d2 → n2 ≠ 0 →
      delivered (trace_of (run cfg oss st))
      = [ keystream_segment 0 n1 nonce (key cfg);
          keystream_segment 0 n2 nonce (key cfg) ].
Proof.
  destruct (delivered_from_stream_start cfg (trace_of (run cfg oss st))
              (run_from_stream_start cfg oss st)) as [Hd Hs].
  split; [done|]. split; [done|].
  intros os1 os2 r1 r2 n1 d1 n2 d2 -> ? ? ? ? ? ? ? ?.
  by apply (run_two_entropy_requests cfg os1 os2 st r1 r2 n1 d1 n2 d2).
Qed.

Lemma stream_restarts_every_call_witness :
  delivered (trace_of (run sample_config
                         [getrandom_turn 4096 16; getrandom_turn 8192 16]
                         (initial [])))
  = [ keystream_segment 0 16 nonce (key sample_config);
      keystream_segment 0 16 nonce (key sample_config) ].
Proof.
  apply (proj2 (proj2 (stream_restarts_every_call sample_config
           [getrandom_turn 4096 16; getrandom_turn 8192 16] (initial [])))
           (getrandom_turn 4096 16) (getrandom_turn 8192 16)
           (syscall_regs SYS_getrandom 4096 16 0)
           (syscall_regs SYS_getrandom 8192 16 0) 16 4096 16 8192);
    try reflexivity; try discriminate;
    (left; split; [reflexivity|split; reflexivity]).
Defined.

(** ** Key and nonce *)

(** C2, as stated, fails: the nonce handed to the cipher is not twelve
    zero bytes; it has [crypto_stream_chacha20_NONCEBYTES = 8] bytes. *)
Lemma nonce_is_not_twelve_bytes :
  nonce ≠ replicate crypto_stream_chacha20_ietf_NONCEBYTES 0
  ∧ length nonce = 8%nat.
Proof. split; [discriminate|reflexivity]. Qed.

(** C2 (amended): every buffer copied into the child is the ChaCha20 key
    stream of [crypto_stream_chacha20] (64-bit block counter from zero)
    under the first 32 bytes of the derived key and a nonce of eight
    zero bytes; no other nonce is used.  For requests of at most 2^38
    bytes these are the bytes of the IETF variant under twelve zero
    bytes. *)
Theorem keystream_key_and_nonce cfg oss st :
  Forall (λ a, match a with
               | process_vm_writev _ n data =>
                   data = crypto_stream_chacha20 n (replicate 8 0)
                            (take 32 (key cfg))
                   ∧ (n ≤ 2 ^ 38 →
                      data = crypto_stream_chacha20_ietf n (replicate 12 0)
                               (take 32 (key cfg)))
               | _ => True
               end)
         (trace_of (run cfg oss st)).
Proof.
  eapply Forall_impl; [apply run_from_stream_start|].
  intros [|r|d n data|off v]; simpl; try done.
  intros [-> Hn].
  change nonce with (replicate 8 0).
  rewrite <- (ChaCha20Facts.crypto_stream_chacha20_key_prefix n _ (key cfg)).
  split; [done|]. intros Hle.
  by apply ChaCha20Facts.crypto_stream_chacha20_zero_nonce_ietf.
Qed.

(** ** Substitution at the exit stop *)

(** What the child holds after the second stop of a turn that satisfied
    an entropy request, when the kernel transferred [moved] of the [n]
    bytes: [rax] is [n] in any case, the first [moved] bytes of the
    buffer are key stream, the rest of memory is as it was. *)
Lemma child_after_substitution cfg os st regs n d moved child :
  cooperative os = true → entry_regs os = Some regs →
  entropy_request st regs n d → n ≠ 0 → 0 ≤ moved ≤ n →
  let child' :=
    foldl (perform moved) child
          (since_last_resume (trace_of (loop_body cfg os st))) in
  rax (t_regs child') = n
  ∧ (∀ i, 0 ≤ i < moved →
          t_mem child' (d + i)
          = crypto_stream_chacha20 n nonce (key cfg) !!! Z.to_nat i)
  ∧ (∀ a, ¬ (d ≤ a < d + moved) → t_mem child' a = t_mem child a).
Proof.
  intros Hos Hregs Hreq Hn Hm.
  destruct (loop_body_entropy_request cfg os st regs n d)
    as (st' & Heq & Hlen & _); try done.
  rewrite Heq.
  cbn [trace_of fst since_last_resume foldl app perform t_regs t_mem].
  rewrite decide_True by reflexivity. split; [reflexivity|].
  rewrite Z.min_l by lia. split.
  - intros i Hi. rewrite decide_True by lia. f_equal. lia.
  - intros a Ha. by rewrite decide_False.
Qed.


(** ** Disarming at the entry stop *)

(** C4 (the code departs from it): the loop takes the stops two by two
    for the entry and the exit of one call.  A signal delivered between
    two [getrandom] calls is a stop of its own; the entry stop of the
    second [getrandom] then falls on the second wait of a turn, where
    the tracer makes no request: the child is resumed with [orig_rax]
    still 318 and the kernel runs the call.  The tracer writes -1 only
    at the exit stop of that call, and substitutes at the entry stop of
    the next one. *)
Theorem signal_stop_lets_getrandom_run :
  ∃ log data,
    log = trace_of (run sample_config
                      (turns_of_stops signal_between_getrandoms)
                      (initial []))
    ∧ signal_between_getrandoms !! 3%nat
      = Some (entry_of SYS_getrandom 8192 16 0)
    ∧ requests_at_stop 3 log = []
    ∧ (∀ moved child,
         orig_rax (t_regs (foldl (perform moved) child
                             (requests_at_stop 3 log)))
         = orig_rax (t_regs child))
    ∧ c_long (orig_rax (seen (entry_of SYS_getrandom 8192 16 0)))
      = SYS_getrandom
    ∧ requests_at_stop 4 log
      = [ PTRACE_SETREGS
            (set_orig_rax (c_ulong (-1))
               (seen (exit_of SYS_getrandom 8192 16 0 16))) ]
    ∧ requests_at_stop 5 log
      = [ process_vm_writev 8192 16 data; PTRACE_POKEUSER (RAX * 8) 16 ].
Proof.
  eexists _, _. split; [reflexivity|]. split; [reflexivity|].
  split; [vm_compute; reflexivity|]. split.
  { intros moved child.
    replace (requests_at_stop 3 _) with (@nil action)
      by (vm_compute; reflexivity).
    reflexivity. }
  repeat split; vm_compute; reflexivity.
Qed.

(** ** Zero-length requests *)

(** C10: for an entropy request of size zero ([getrandom] with count 0,
    or a [read] of 0 bytes on a monitored descriptor) the tracer only
    resumes the child: it writes no register and no memory, its own
    state is unchanged, and the child is resumed with the original
    system call number, so the call runs natively. *)
Theorem zero_length_request_untouched cfg os st regs d :
  entry_regs os = Some regs → entropy_request st regs 0 d →
  Forall (λ a, a = PTRACE_SYSCALL) (trace_of (loop_body cfg os st))
  ∧ (∀ st', outcome_of (loop_body cfg os st) = inr st' → st' = st)
  ∧ (cooperative os = true →
     loop_body cfg os st = ([PTRACE_SYSCALL; PTRACE_SYSCALL], inr st)
     ∧ dispatched regs (trace_of (loop_body cfg os st))
       = Some (orig_rax regs)
     ∧ ∀ moved child,
         foldl (perform moved) child
           (since_last_resume (trace_of (loop_body cfg os st))) = child).
Proof.
  intros Hregs Hreq.
  destruct (zero_length_passes cfg os st regs d Hregs Hreq)
    as (Hlog & Hst & Hcoop).
  split; [done|]. split; [done|]. intros Hos.
  destruct (Hcoop Hos) as [Heq Hd]. split; [done|]. split; [done|].
  intros moved child. rewrite Heq. reflexivity.
Qed.

Lemma zero_length_request_untouched_witness :
  Forall (λ a, a = PTRACE_SYSCALL)
    (trace_of (loop_body sample_config (read_turn 3 4096 0 0) monitoring_3))
  ∧ (∀ st', outcome_of (loop_body sample_config (read_turn 3 4096 0 0)
                          monitoring_3) = inr st' → st' = monitoring_3)
  ∧ (cooperative (read_turn 3 4096 0 0) = true →
     loop_body sample_config (read_turn 3 4096 0 0) monitoring_3
     = ([PTRACE_SYSCALL; PTRACE_SYSCALL], inr monitoring_3)
     ∧ dispatched (syscall_regs SYS_read 3 4096 0)
         (trace_of (loop_body sample_config (read_turn 3 4096 0 0)
                      monitoring_3))
       = Some (orig_rax (syscall_regs SYS_read 3 4096 0))
     ∧ ∀ moved child,
         foldl (perform moved) child
           (since_last_resume
              (trace_of (loop_body sample_config (read_turn 3 4096 0 0)
                           monitoring_3))) = child).
Proof.
  apply (zero_length_request_untouched sample_config (read_turn 3 4096 0 0)
           monitoring_3 (syscall_regs SYS_read 3 4096 0) 4096).
  - reflexivity.
  - right. split; [reflexivity|]. split; [|split; reflexivity].
    vm_compute. left.
Defined.

(** ** PID forgery *)

(** C9 (the code departs from it): with [-p] and a signal delivered
    before the child calls [getpid], the entry stop of [getpid] falls on
    the second wait of a turn and its exit stop on the first wait of the
    next.  At that exit stop the tracer makes no request, so the child
    receives the real process id 4242; the poke of [rax] with the fake
    value 2 is made at the entry stop of the call that follows. *)
Theorem signal_stop_leaves_getpid_unforged :
  ∃ log,
    log = trace_of (run forging_config (turns_of_stops signal_before_getpid)
                      (initial []))
    ∧ fake_pid forging_config = 2
    ∧ signal_before_getpid !! 2%nat
      = Some (exit_of SYS_getpid 0 0 0 4242)
    ∧ requests_at_stop 2 log = []
    ∧ (∀ moved,
         rax (t_regs (foldl (perform moved)
                        (blank_child (seen (exit_of SYS_getpid 0 0 0 4242)))
                        (requests_at_stop 2 log)))
         = 4242)
    ∧ signal_before_getpid !! 3%nat = Some (entry_of 1 1 4096 5)
    ∧ requests_at_stop 3 log = [PTRACE_POKEUSER (RAX * 8) 2].
Proof.
  eexists. split; [reflexivity|]. split; [reflexivity|].
  split; [reflexivity|]. split; [vm_compute; reflexivity|]. split.
  { intros moved.
    replace (requests_at_stop 2 _) with (@nil action)
      by (vm_compute; reflexivity).
    reflexivity. }
  split; [reflexivity|]. vm_compute. reflexivity.
Qed.

(** ** Which reads are intercepted *)


(** Closing one of two equal entries leaves the other: after two tracked
    opens that both return 3 and one [close(3)], 3 is still monitored. *)
Example duplicate_descriptor_survives_close :
  ∃ st,
    outcome_of (run sample_config
                  [ open_turn "/dev/urandom" 3; open_turn "/dev/urandom" 3;
                    close_turn 3 ] (initial [])) = inr st
    ∧ monitored st = [3].
Proof. eexists. split; vm_compute; reflexivity. Qed.



(** ** Tracking the result of an open *)


(** C6 (the code departs from it): an open of [/dev/urandom] that fails
    with [-ENOENT] puts -2 into the monitored set. *)
Theorem failed_open_is_monitored :
  ∃ st,
    loop_body sample_config (open_turn "/dev/urandom" (-2)) (initial [])
    = ([PTRACE_SYSCALL; PTRACE_SYSCALL], inr st)
    ∧ monitored st = [-2]
    ∧ nmonitor st = 1.
Proof. eexists. split; [vm_compute; reflexivity|]. split; reflexivity. Qed.

(** Sixteen failed opens fill the array: the seventeenth attempt ends
    the tracer, although the child holds no entropy descriptor. *)
Example failed_opens_exhaust_the_array :
  outcome_of (run sample_config
                (replicate 17 (open_turn "/dev/urandom" (-2))) (initial []))
  = inl (Fatal "too many open file descriptors").
Proof. vm_compute. reflexivity. Qed.

(** ** The path of an open, at the entry stop *)

(** C7: at an [open] whose path argument is the C string [s] (the 13
    bytes read there are [s], its NUL and what follows, cut to 13), and
    with room in the array, the classification sets [capture_fd] exactly
    when [s] is [/dev/random] or [/dev/urandom]; the comparison covers
    the terminating NUL, 12 and 13 bytes. *)
Theorem open_path_exact_match os regs st s rest path :
  c_long (orig_rax regs) = SYS_open → path_bytes os = Some path →
  reads_c_string s rest path → nmonitor st ≠ monitor_capacity →
  ∃ c,
    classify os regs st = mret (st, c) ∧ size c = 0
    ∧ (capture_fd c = true
       ↔ s = bytes_of_string "/dev/random"
         ∨ s = bytes_of_string "/dev/urandom")
    ∧ is_entropy_path path
      = memcmp_eq path (c_literal "/dev/random") 12
        || memcmp_eq path (c_literal "/dev/urandom") 13
    ∧ length (c_literal "/dev/random") = 12%nat
    ∧ length (c_literal "/dev/urandom") = 13%nat.
Proof.
  intros Hnr Hp Hs Hfull.
  pose proof (is_entropy_path_c_string s rest path Hs) as Hiff.
  rewrite (classify_open _ _ _ Hnr), Hp. unfold receive. rewrite T_bind_ret.
  destruct (is_entropy_path path) eqn:He.
  - destruct (decide (nmonitor st = c_int monitor_capacity)) as [?|_];
      [done|].
    eexists. split; [reflexivity|]. split; [reflexivity|].
    split; [|done]. simpl. tauto.
  - eexists. split; [reflexivity|]. split; [reflexivity|].
    split; [|done]. simpl. rewrite <- Hiff. done.
Qed.

Lemma open_path_exact_match_witness :
  ∃ c,
    classify (open_turn "/dev/urandomXYZ" 3)
      (syscall_regs SYS_open 4096 0 0) (initial [])
    = mret (initial [], c) ∧ size c = 0
    ∧ (capture_fd c = true
       ↔ bytes_of_string "/dev/urandomXYZ" = bytes_of_string "/dev/random"
         ∨ bytes_of_string "/dev/urandomXYZ" = bytes_of_string "/dev/urandom")
    ∧ is_entropy_path (take 13 (c_literal "/dev/urandomXYZ" ++ replicate 13 0))
      = memcmp_eq (take 13 (c_literal "/dev/urandomXYZ" ++ replicate 13 0))
          (c_literal "/dev/random") 12
        || memcmp_eq (take 13 (c_literal "/dev/urandomXYZ" ++ replicate 13 0))
             (c_literal "/dev/urandom") 13
    ∧ length (c_literal "/dev/random") = 12%nat
    ∧ length (c_literal "/dev/urandom") = 13%nat.
Proof.
  apply (open_path_exact_match (open_turn "/dev/urandomXYZ" 3)
           (syscall_regs SYS_open 4096 0 0) (initial [])
           (bytes_of_string "/dev/urandomXYZ") (replicate 13 0)).
  - reflexivity.
  - reflexivity.
  - split; [repeat constructor; discriminate|]. split; reflexivity.
  - discriminate.
Defined.

(** The two names are accepted, an extension and a prefix are not. *)
Example open_paths :
  is_entropy_path (take 13 (c_literal "/dev/random" ++ replicate 13 7)) = true
  ∧ is_entropy_path (take 13 (c_literal "/dev/urandom" ++ replicate 13 7))
    = true
  ∧ is_entropy_path (take 13 (c_literal "/dev/urandomXYZ" ++ replicate 13 7))
    = false
  ∧ is_entropy_path (take 13 (c_literal "/dev/randomX" ++ replicate 13 7))
    = false
  ∧ is_entropy_path (take 13 (c_literal "/dev/rando" ++ replicate 13 7))
    = false.
Proof. repeat split; vm_compute; reflexivity. Qed.

(** ** The capacity of the descriptor array *)

(** C8: in every state the loop reaches from its start the number of
    monitored descriptors is between 0 and 16; and an open of an entropy
    device classified while 16 are monitored ends the tracer at the
    entry stop, before the child is resumed and before any insertion. *)
Theorem monitor_never_exceeds_capacity cfg oss stack l st :
  run cfg oss (initial stack) = (l, inr st) →
  0 ≤ nmonitor st ≤ monitor_capacity
  ∧ Z.of_nat (length (monitored st)) = nmonitor st
  ∧ Z.of_nat (length (monitor_fd st)) = monitor_capacity
  ∧ ∀ os regs path,
      entry_resume os = true → entry_wait os = true →
      entry_regs os = Some regs → c_long (orig_rax regs) = SYS_open →
      path_bytes os = Some path → is_entropy_path path = true →
      nmonitor st = monitor_capacity →
      loop_body cfg os st
      = ([PTRACE_SYSCALL], inl (Fatal "too many open file descriptors")).
Proof.
  intros Hrun.
  pose proof (run_ok _ _ _ _ _ Hrun (initial_ok stack)) as Hok.
  split; [apply Hok|]. split; [by apply length_monitored|].
  split; [apply Hok|]. intros os regs path. apply loop_body_full.
Qed.

Lemma monitor_never_exceeds_capacity_witness :
  run sample_config sixteen_opens (initial [])
  = (replicate 32 PTRACE_SYSCALL, inr full_tracer)
  ∧ (0 ≤ nmonitor full_tracer ≤ monitor_capacity
     ∧ Z.of_nat (length (monitored full_tracer)) = nmonitor full_tracer
     ∧ Z.of_nat (length (monitor_fd full_tracer)) = monitor_capacity
     ∧ ∀ os regs path,
         entry_resume os = true → entry_wait os = true →
         entry_regs os = Some regs → c_long (orig_rax regs) = SYS_open →
         path_bytes os = Some path → is_entropy_path path = true →
         nmonitor full_tracer = monitor_capacity →
         loop_body sample_config os full_tracer
         = ([PTRACE_SYSCALL],
            inl (Fatal "too many open file descriptors"))).
Proof.
  split; [vm_compute; reflexivity|].
  apply (monitor_never_exceeds_capacity sample_config sixteen_opens []
           (replicate 32 PTRACE_SYSCALL) full_tracer).
  vm_compute. reflexivity.
Defined.

(** With the array full, the next open of an entropy device is fatal. *)
Example seventeenth_open_is_fatal :
  run sample_config (sixteen_opens ++ [open_turn "/dev/random" 19])
      (initial [])
  = (replicate 33 PTRACE_SYSCALL,
     inl (Fatal "too many open file descriptors")).
Proof. vm_compute. reflexivity. Qed.

(** Scenario S4: with [-p], a [write] by the child is left alone. *)
Example forging_leaves_write_alone :
  loop_body forging_config (write_turn 1 4096 5) (initial [])
  = ([PTRACE_SYSCALL; PTRACE_SYSCALL], inr (initial [])).
Proof. vm_compute. reflexivity. Qed.

(** [-p-1] names the value that stands for "no forgery". *)
Example option_p_minus_one : option_p (Some "-1"%string) = fake_pid_default.
Proof. vm_compute. reflexivity. Qed.

(** * Further properties of the trace loop *)

(** ** The end of the child *)

Lemma loop_body_exit cfg os st regs :
  entry_resume os = true → entry_wait os = true →
  entry_regs os = Some regs →
  c_long (orig_rax regs) = SYS_exit ∨ c_long (orig_rax regs) = SYS_exit_group →
  loop_body cfg os st = ([PTRACE_SYSCALL], inl (Exit (c_int (rdi regs)))).
Proof.
  intros H1 H2 Hregs Hnr. unfold loop_body. rewrite H1, H2, Hregs. simpl.
  by rewrite (classify_exit _ _ _ Hnr).
Qed.

Lemma classify_exits os regs st l code :
  classify os regs st = (l, inl (Exit code)) →
  (c_long (orig_rax regs) = SYS_exit ∨ c_long (orig_rax regs) = SYS_exit_group)
  ∧ code = c_int (rdi regs).
Proof.
  unfold classify. cbv zeta.
  destruct (decide (_ ∨ _)) as [Hnr|_]; [by intros [= <- <-]|].
  destruct (decide (_ = SYS_open)).
  { destruct (path_bytes os) as [p|]; [|done].
    unfold receive. rewrite T_bind_ret.
    destruct (is_entropy_path p); [|done]. by case_decide. }
  destruct (decide (_ = SYS_close)).
  { by destruct (lookup_monitor st _). }
  destruct (decide (_ = SYS_read)).
  { by destruct (lookup_monitor st _). }
  by case_decide.
Qed.

Lemma T_bind_inl {A B} (m : T A) (f : A → T B) l h :
  (m ≫= f) = (l, inl h) →
  m = (l, inl h)
  ∨ ∃ l1 a l2, m = (l1, inr a) ∧ f a = (l2, inl h) ∧ l = l1 ++ l2.
Proof.
  destruct m as [l1 [h1|a]].
  - intros [= <- <-]. by left.
  - rewrite T_bind_cons. destruct (f a) as [l2 r] eqn:E.
    unfold trace_of, outcome_of. simpl. intros [= <- ->]. right. eauto 6.
Qed.

Lemma issue_no_exit a ok l code : issue a ok ≠ (l, inl (Exit code)).
Proof. by destruct ok. Qed.

Lemma expect_no_exit ok l code : expect ok ≠ (l, inl (Exit code)).
Proof. by destruct ok. Qed.

Lemma receive_no_exit {A} (r : option A) l code :
  receive r ≠ (l, inl (Exit code)).
Proof. by destruct r. Qed.

Lemma loop_body_exits cfg os st l code :
  loop_body cfg os st = (l, inl (Exit code)) →
  ∃ regs, entry_regs os = Some regs
    ∧ (c_long (orig_rax regs) = SYS_exit
       ∨ c_long (orig_rax regs) = SYS_exit_group)
    ∧ code = c_int (rdi regs).
Proof.
  unfold loop_body. intros H.
  apply T_bind_inl in H as [H|(? & [] & ? & _ & H & _)];
    [by apply issue_no_exit in H|].
  apply T_bind_inl in H as [H|(? & [] & ? & _ & H & _)];
    [by apply expect_no_exit in H|].
  apply T_bind_inl in H as [H|(? & regs & ? & Hregs & H & _)];
    [by apply receive_no_exit in H|].
  apply receive_inr in Hregs as [Hregs _]. exists regs. split; [done|].
  apply T_bind_inl in H as [H|(? & [st1 c] & ? & _ & H & _)];
    [by apply classify_exits in H|].
  exfalso.
  apply T_bind_inl in H as [H|(? & st2 & ? & _ & H & _)].
  { unfold disarm in H. case_decide; [|done].
    apply T_bind_inl in H as [H|(? & [] & ? & _ & H & _)];
      [by apply issue_no_exit in H|].
    case_decide; [|done]. by destruct (malloc_ok os). }
  apply T_bind_inl in H as [H|(? & [] & ? & _ & H & _)];
    [by apply issue_no_exit in H|].
  apply T_bind_inl in H as [H|(? & [] & ? & _ & H & _)];
    [by apply expect_no_exit in H|].
  apply T_bind_inl in H as [H|(? & st3 & ? & _ & H & _)].
  { unfold substitute in H. case_decide; [|done].
    apply T_bind_inl in H as [H|(? & [] & ? & _ & H & _)];
      [by apply issue_no_exit in H|].
    apply T_bind_inl in H as [H|(? & [] & ? & _ & H & _)];
      [by apply issue_no_exit in H|]. done. }
  apply T_bind_inl in H as [H|(? & st4 & ? & _ & H & _)].
  { unfold track in H. destruct (capture_fd c); [|done].
    apply T_bind_inl in H as [H|(? & ? & ? & _ & H & _)];
      [by apply receive_no_exit in H|]. done. }
  apply T_bind_inl in H as [H|(? & [] & ? & _ & H & _)]; [|done].
  unfold forge_pid in H. case_decide; [|done]. case_decide; [|done].
  by apply issue_no_exit in H.
Qed.

(** X1: a turn at whose first stop the registers show [exit] or
    [exit_group] ends the tracer there with the status argument (as an
    [int]): the child is not resumed and no further turn is taken.  A
    turn whose first stop shows another call never ends with a status,
    whatever its second stop shows: an [exit] whose entry stop falls on
    the second wait of a turn is not mirrored. *)
Theorem exit_mirrors_status cfg os oss st regs :
  entry_resume os = true → entry_wait os = true →
  entry_regs os = Some regs →
  (c_long (orig_rax regs) = SYS_exit ∨ c_long (orig_rax regs) = SYS_exit_group
   → run cfg (os :: oss) st
     = ([PTRACE_SYSCALL], inl (Exit (c_int (rdi regs)))))
  ∧ (c_long (orig_rax regs) ≠ SYS_exit →
     c_long (orig_rax regs) ≠ SYS_exit_group →
     ∀ code, outcome_of (loop_body cfg os st) ≠ inl (Exit code)).
Proof.
  intros H1 H2 Hregs. split.
  - intros Hnr. by rewrite run_cons, (loop_body_exit cfg os st regs).
  - intros Hne1 Hne2 code Hout.
    destruct (loop_body cfg os st) as [l r] eqn:E. simpl in Hout. subst r.
    apply loop_body_exits in E as (regs' & Hregs' & Hnr & _).
    replace regs' with regs in Hnr by congruence. by destruct Hnr.
Qed.

Lemma exit_mirrors_status_witness :
  (c_long (orig_rax (syscall_regs SYS_exit 7 0 0)) = SYS_exit
   ∨ c_long (orig_rax (syscall_regs SYS_exit 7 0 0)) = SYS_exit_group
   → run sample_config (exit_turn 7 :: [getrandom_turn 4096 16]) (initial [])
     = ([PTRACE_SYSCALL],
        inl (Exit (c_int (rdi (syscall_regs SYS_exit 7 0 0))))))
  ∧ (c_long (orig_rax (syscall_regs SYS_exit 7 0 0)) ≠ SYS_exit →
     c_long (orig_rax (syscall_regs SYS_exit 7 0 0)) ≠ SYS_exit_group →
     ∀ code, outcome_of (loop_body sample_config (exit_turn 7) (initial []))
             ≠ inl (Exit code)).
Proof.
  apply (exit_mirrors_status sample_config (exit_turn 7)
           [getrandom_turn 4096 16] (initial [])
           (syscall_regs SYS_exit 7 0 0)).
  - reflexivity.
  - reflexivity.
  - reflexivity.
Defined.

(** After a signal stop the entry stop of [exit_group(0)] is the second
    stop of a turn: the turn goes on, and the loop ends only when the
    next resumption fails, the child being gone. *)
Example exit_after_signal_is_not_mirrored :
  run sample_config (turns_of_stops signal_before_exit) (initial [])
  = ([PTRACE_SYSCALL; PTRACE_SYSCALL], inr (initial []))
  ∧ kind <$> signal_before_exit !! 1%nat = Some syscall_entry
  ∧ ∀ os, entry_resume os = false →
          run sample_config (turns_of_stops signal_before_exit ++ [os])
              (initial [])
          = ([PTRACE_SYSCALL; PTRACE_SYSCALL], inl (Fatal "%s")).
Proof.
  split; [vm_compute; reflexivity|]. split; [reflexivity|].
  intros os Hos. cbn [turns_of_stops signal_before_exit app].
  rewrite run_cons.
  replace (loop_body sample_config _ (initial []))
    with ([PTRACE_SYSCALL; PTRACE_SYSCALL], @inr halt tracer (initial []))
    by (vm_compute; reflexivity).
  rewrite T_bind_cons, run_cons. unfold loop_body. rewrite Hos. reflexivity.
Qed.

(** X2: a run ends with an exit status only because the child called
    [exit] or [exit_group], and the status is the child's argument; every
    other end of the tracer is [fatal]. *)
Theorem only_the_child_ends_the_run cfg oss st l code :
  run cfg oss st = (l, inl (Exit code)) →
  ∃ os regs, os ∈ oss ∧ entry_regs os = Some regs
    ∧ (c_long (orig_rax regs) = SYS_exit
       ∨ c_long (orig_rax regs) = SYS_exit_group)
    ∧ code = c_int (rdi regs).
Proof.
  revert st l. induction oss as [|os oss IH]; intros st l; [done|].
  rewrite run_cons. intros H.
  apply T_bind_inl in H as [H|(l1 & st1 & l2 & _ & H & _)].
  - apply loop_body_exits in H as (regs & ? & ? & ?).
    exists os, regs. split; [by left|done].
  - apply IH in H as (os' & regs & Hin & ?).
    exists os', regs. split; [by right|done].
Qed.

Lemma only_the_child_ends_the_run_witness :
  ∃ os regs,
    os ∈ [getrandom_turn 4096 16; exit_turn 7]
    ∧ entry_regs os = Some regs
    ∧ (c_long (orig_rax regs) = SYS_exit
       ∨ c_long (orig_rax regs) = SYS_exit_group)
    ∧ 7 = c_int (rdi regs).
Proof.
  apply (only_the_child_ends_the_run sample_config
           [getrandom_turn 4096 16; exit_turn 7] (initial [])
           (trace_of (run sample_config
                        [getrandom_turn 4096 16; exit_turn 7] (initial [])))
           7).
  vm_compute. reflexivity.
Defined.

(** ** What a turn may touch *)


Lemma classify_no_request os regs st st1 c :
  outcome_of (classify os regs st) = inr (st1, c) →
  c_long (orig_rax regs) ≠ SYS_read →
  c_long (orig_rax regs) ≠ SYS_getrandom → size c = 0.
Proof.
  destruct (classify os regs st) as [l [h|[st1' c']]] eqn:E; [done|].
  intros [= -> ->] Hr Hg. apply classify_inr in E as [_ Hc].
  destruct Hc as [| |n d [?|?] _|]; done.
Qed.



Lemma entropy_request_nr st regs n d :
  entropy_request st regs n d →
  c_long (orig_rax regs) = SYS_read ∨ c_long (orig_rax regs) = SYS_getrandom.
Proof. intros [[? _]|[? _]]; [by right|by left]. Qed.

Lemma forge_pid_disabled cfg os nr :
  fake_pid cfg = fake_pid_default → forge_pid cfg os nr = mret ().
Proof.
  intros H. unfold forge_pid. case_decide; [|done]. by case_decide.
Qed.

(** X4: a system call other than [read] and [getrandom], and other
    than [getpid] unless forgery is on, is only resumed: the tracer
    changes neither a register nor memory of the child, whatever the
    operating system answers.  This holds for [getpid] too when
    [fake_pid] is -1, the value [-p-1] sets. *)
Theorem other_calls_are_only_resumed cfg os st regs :
  entry_regs os = Some regs →
  c_long (orig_rax regs) ≠ SYS_read →
  c_long (orig_rax regs) ≠ SYS_getrandom →
  c_long (orig_rax regs) ≠ SYS_getpid ∨ fake_pid cfg = fake_pid_default →
  Forall (λ a, a = PTRACE_SYSCALL) (trace_of (loop_body cfg os st))
  ∧ ∀ moved child,
      foldl (perform moved) child (trace_of (loop_body cfg os st)) = child.
Proof.
  intros Hregs Hr Hg Hp.
  assert (Hall : Forall (λ a, a = PTRACE_SYSCALL)
                   (trace_of (loop_body cfg os st))).
  { unfold loop_body. rewrite Hregs.
    apply Forall_trace_bind; [by apply Forall_trace_issue|]. intros _ _.
    apply Forall_trace_bind; [apply Forall_trace_expect|]. intros _ _.
    unfold receive. rewrite T_bind_ret.
    apply Forall_trace_bind; [rewrite trace_of_classify; constructor|].
    intros [st1 c] Hc.
    pose proof (classify_no_request _ _ _ _ _ Hc Hr Hg) as Hz.
    apply Forall_trace_bind.
    { unfold disarm. case_decide; [done|constructor]. }
    intros st2 _.
    apply Forall_trace_bind; [by apply Forall_trace_issue|]. intros _ _.
    apply Forall_trace_bind; [apply Forall_trace_expect|]. intros _ _.
    apply Forall_trace_bind.
    { unfold substitute. case_decide; [done|constructor]. }
    intros st3 _.
    apply Forall_trace_bind.
    { unfold track. destruct (capture_fd c); [|constructor].
      apply Forall_trace_bind; [apply Forall_trace_receive|]. constructor. }
    intros st4 _.
    apply Forall_trace_bind; [|constructor].
    destruct Hp as [Hp|Hp].
    - rewrite (forge_pid_other _ _ _ Hp). constructor.
    - rewrite (forge_pid_disabled _ _ _ Hp). constructor. }
  split; [done|]. intros moved child.
  induction Hall as [|a log -> _ IH]; [done|]. exact IH.
Qed.

Lemma other_calls_are_only_resumed_witness :
  Forall (λ a, a = PTRACE_SYSCALL)
    (trace_of (loop_body forging_config (write_turn 1 4096 5) (initial [])))
  ∧ ∀ moved child,
      foldl (perform moved) child
        (trace_of (loop_body forging_config (write_turn 1 4096 5)
                     (initial []))) = child.
Proof.
  apply (other_calls_are_only_resumed forging_config (write_turn 1 4096 5)
           (initial []) (syscall_regs 1 1 4096 5)).
  - reflexivity.
  - discriminate.
  - discriminate.
  - left. discriminate.
Defined.

(** ** The substitution buffer *)

Lemma classified_buflen os regs st st1 c :
  classified os regs st st1 c → buflen st1 = buflen st.
Proof. by intros []. Qed.

Lemma disarm_buflen os regs c st l st1 :
  disarm os regs c st = (l, inr st1) →
  satisfied l = []
  ∧ buflen st1 = if decide (size c ≠ 0) then Z.max (buflen st) (size c)
                 else buflen st.
Proof.
  unfold disarm. case_decide; [|by intros [= <- <-]].
  destruct (setregs_ok os); [|done]. simpl.
  case_decide.
  - destruct (malloc_ok os); [|done]. intros [= <- <-]. simpl.
    split; [done|lia].
  - intros [= <- <-]. split; [done|lia].
Qed.

Lemma substitute_buflen cfg os c st l st1 :
  substitute cfg os c st = (l, inr st1) →
  buflen st1 = buflen st
  ∧ satisfied l = if decide (size c ≠ 0) then [size c] else [].
Proof.
  unfold substitute. case_decide; [|by intros [= <- <-]].
  destruct (writev_ok os); [|done]. simpl.
  destruct (poke_size_ok os); [|done]. by intros [= <- <-].
Qed.

Lemma forge_pid_satisfied cfg os nr l u :
  forge_pid cfg os nr = (l, inr u) → satisfied l = [].
Proof.
  unfold forge_pid. case_decide; [|by intros [= <-]].
  case_decide; [|by intros [= <-]].
  destruct (poke_pid_ok os); [|done]. by intros [= <-].
Qed.

Lemma loop_body_buflen cfg os st l st' :
  loop_body cfg os st = (l, inr st') → 0 ≤ buflen st →
  buflen st' = Z.max (buflen st) (foldr Z.max 0 (satisfied l)).
Proof.
  unfold loop_body. intros H Hb.
  apply T_bind_inr in H as (l1 & [] & ? & H1 & H & ->).
  apply issue_inr in H1 as [_ ->].
  apply T_bind_inr in H as (? & [] & ? & H2 & H & ->).
  apply expect_inr in H2 as [_ ->].
  apply T_bind_inr in H as (? & regs & ? & Hregs & H & ->).
  apply receive_inr in Hregs as [Hregs ->].
  apply T_bind_inr in H as (? & [st1 c] & ? & Hc & H & ->).
  pose proof (classify_size os regs st st1 c) as Hrange.
  rewrite Hc in Hrange. specialize (Hrange eq_refl).
  apply classify_inr in Hc as [-> Hc]. apply classified_buflen in Hc.
  apply T_bind_inr in H as (ld & st2 & ? & Hd & H & ->).
  apply disarm_buflen in Hd as [Hd1 Hd2].
  apply T_bind_inr in H as (? & [] & ? & H3 & H & ->).
  apply issue_inr in H3 as [_ ->].
  apply T_bind_inr in H as (? & [] & ? & H4 & H & ->).
  apply expect_inr in H4 as [_ ->].
  apply T_bind_inr in H as (ls & st3 & ? & Hs & H & ->).
  apply substitute_buflen in Hs as [Hs1 Hs2].
  apply T_bind_inr in H as (? & st4 & ? & Ht & H & ->).
  apply track_inr in Ht as [-> Ht].
  apply T_bind_inr in H as (lp & [] & ? & Hp & H & ->).
  apply forge_pid_satisfied in Hp. injection H as <- <-.
  rewrite !satisfied_app, Hd1, Hs2, Hp. simpl. rewrite app_nil_r.
  assert (buflen st4 = buflen st3) as ->.
  { destruct (capture_fd c); [by destruct Ht as (r & _ & ->)|by subst]. }
  rewrite Hs1, Hd2, Hc. case_decide; simpl; lia.
Qed.

Lemma foldr_max_app (l1 l2 : list Z) :
  foldr Z.max 0 (l1 ++ l2) = Z.max (foldr Z.max 0 l1) (foldr Z.max 0 l2)
  ∨ foldr Z.max 0 l2 < 0.
Proof.
  induction l1 as [|x l1 IH]; simpl; [lia|]. lia.
Qed.

Lemma foldr_max_nonneg (l : list Z) : 0 ≤ foldr Z.max 0 l.
Proof. induction l; simpl; lia. Qed.

Lemma run_buflen cfg oss st l st' :
  run cfg oss st = (l, inr st') → 0 ≤ buflen st →
  buflen st' = Z.max (buflen st) (foldr Z.max 0 (satisfied l)).
Proof.
  revert st l. induction oss as [|os oss IH]; intros st l.
  - intros [= <- <-] Hb. simpl. lia.
  - rewrite run_cons. intros H Hb.
    apply T_bind_inr in H as (l1 & st1 & l2 & H1 & H2 & ->).
    pose proof (loop_body_buflen _ _ _ _ _ H1 Hb) as E1.
    assert (0 ≤ buflen st1) by lia.
    rewrite (IH _ _ H2) by done. rewrite E1, satisfied_app.
    pose proof (foldr_max_nonneg (satisfied l2)).
    destruct (foldr_max_app (satisfied l1) (satisfied l2)) as [->|?]; lia.
Qed.

(** X5: after any run from the start of the loop the buffer size
    [buflen] is the largest request satisfied so far (0 if none), so
    every satisfied request fits, and no further turn makes it smaller. *)
Theorem buffer_grows_to_largest_request cfg oss stack l st :
  run cfg oss (initial stack) = (l, inr st) →
  buflen st = foldr Z.max 0 (satisfied l)
  ∧ Forall (λ n, n ≤ buflen st) (satisfied l)
  ∧ ∀ os l' st',
      loop_body cfg os st = (l', inr st') → buflen st ≤ buflen st'.
Proof.
  intros H. pose proof (run_buflen _ _ _ _ _ H) as E.
  cbn [initial buflen] in E. specialize (E ltac:(lia)).
  pose proof (foldr_max_nonneg (satisfied l)).
  assert (Hb : buflen st = foldr Z.max 0 (satisfied l)) by lia.
  split; [done|]. split.
  - rewrite Hb. clear. induction (satisfied l) as [|x xs IH]; [constructor|].
    simpl. constructor; [lia|].
    eapply Forall_impl; [exact IH|]. simpl. lia.
  - intros os l' st' H'. apply loop_body_buflen in H'; lia.
Qed.

Lemma buffer_grows_to_largest_request_witness :
  buflen after_two_requests
  = foldr Z.max 0
      (satisfied (trace_of (run sample_config two_requests (initial []))))
  ∧ Forall (λ n, n ≤ buflen after_two_requests)
      (satisfied (trace_of (run sample_config two_requests (initial []))))
  ∧ ∀ os l' st',
      loop_body sample_config os after_two_requests = (l', inr st') →
      buflen after_two_requests ≤ buflen st'.
Proof.
  apply (buffer_grows_to_largest_request sample_config two_requests []
           (trace_of (run sample_config two_requests (initial [])))
           after_two_requests).
  vm_compute. reflexivity.
Defined.

(** ** Closing a descriptor *)

Lemma loop_body_close cfg os st regs :
  cooperative os = true → entry_regs os = Some regs →
  c_long (orig_rax regs) = SYS_close →
  loop_body cfg os st
  = ([PTRACE_SYSCALL; PTRACE_SYSCALL],
     inr match lookup_monitor st (c_int (rdi regs)) with
         | Some i => unmonitor st i
         | None => st
         end).
Proof.
  intros Hos Hregs Hnr.
  apply cooperative_flags in Hos
    as (H1 & H2 & H3 & H4 & H5 & H6 & H7 & H8 & H9).
  unfold loop_body. rewrite H1, H2, Hregs. simpl.
  rewrite (classify_close _ _ _ Hnr).
  assert (Hg : c_long (orig_rax regs) ≠ SYS_getpid) by (by rewrite Hnr).
  destruct (lookup_monitor st (c_int (rdi regs))); simpl;
    unfold disarm, substitute, track, forge_pid; simpl;
    rewrite H5, H6; simpl;
    (destruct (decide (c_long (orig_rax regs) = SYS_getpid)); done).
Qed.

Lemma loop_body_close_monitored cfg os st regs :
  tracer_ok st → cooperative os = true → entry_regs os = Some regs →
  c_long (orig_rax regs) = SYS_close →
  ∃ st',
    loop_body cfg os st = ([PTRACE_SYSCALL; PTRACE_SYSCALL], inr st')
    ∧ (c_int (rdi regs) ∈ monitored st →
       monitored st ≡ₚ c_int (rdi regs) :: monitored st'
       ∧ nmonitor st' = nmonitor st - 1)
    ∧ (c_int (rdi regs) ∉ monitored st → st' = st)
    ∧ (NoDup (monitored st) → c_int (rdi regs) ∉ monitored st').
Proof.
  intros Hok Hos Hregs Hnr.
  rewrite (loop_body_close cfg os st regs) by done.
  eexists. split; [reflexivity|].
  destruct (lookup_monitor st (c_int (rdi regs))) as [i|] eqn:Hi.
  - pose proof (lookup_monitor_Some _ _ _ Hok Hi) as [Hlt Hfd].
    pose proof (monitored_unmonitor _ _ _ Hok Hlt Hfd) as Hperm.
    split; [done|]. split.
    + intros Hnot. exfalso. apply Hnot. apply elem_of_monitored. eauto.
    + intros Hnd. rewrite Hperm in Hnd. by apply NoDup_cons in Hnd as [? _].
  - pose proof (lookup_monitor_None _ _ Hi) as Hnot. done.
Qed.

(** X6: a [close] is only resumed.  If its descriptor is monitored, one
    entry equal to it leaves the monitored set and all others stay
    (whatever their order); if the set had no duplicates the descriptor
    is no longer monitored.  If it is not monitored, nothing changes. *)
Theorem close_forgets_one_entry cfg os st regs :
  tracer_ok st → cooperative os = true → entry_regs os = Some regs →
  c_long (orig_rax regs) = SYS_close →
  ∃ st',
    loop_body cfg os st = ([PTRACE_SYSCALL; PTRACE_SYSCALL], inr st')
    ∧ (c_int (rdi regs) ∈ monitored st →
       monitored st ≡ₚ c_int (rdi regs) :: monitored st'
       ∧ nmonitor st' = nmonitor st - 1)
    ∧ (c_int (rdi regs) ∉ monitored st → st' = st)
    ∧ (NoDup (monitored st) → c_int (rdi regs) ∉ monitored st').
Proof. apply loop_body_close_monitored. Qed.

Lemma close_forgets_one_entry_witness :
  ∃ st',
    loop_body sample_config (close_turn 3) monitoring_3
    = ([PTRACE_SYSCALL; PTRACE_SYSCALL], inr st')
    ∧ (c_int (rdi (syscall_regs SYS_close 3 0 0)) ∈ monitored monitoring_3 →
       monitored monitoring_3
       ≡ₚ c_int (rdi (syscall_regs SYS_close 3 0 0)) :: monitored st'
       ∧ nmonitor st' = nmonitor monitoring_3 - 1)
    ∧ (c_int (rdi (syscall_regs SYS_close 3 0 0)) ∉ monitored monitoring_3 →
       st' = monitoring_3)
    ∧ (NoDup (monitored monitoring_3) →
       c_int (rdi (syscall_regs SYS_close 3 0 0)) ∉ monitored st').
Proof.
  apply (close_forgets_one_entry sample_config (close_turn 3) monitoring_3
           (syscall_regs SYS_close 3 0 0)).
  - split; [vm_compute; split; discriminate|reflexivity].
  - reflexivity.
  - reflexivity.
  - reflexivity.
Defined.



(** ** The bytes depend on the key and the sizes only *)

Lemma from_stream_start_key cfg cfg' a :
  take crypto_stream_chacha20_KEYBYTES (key cfg)
  = take crypto_stream_chacha20_KEYBYTES (key cfg') →
  from_stream_start cfg a → from_stream_start cfg' a.
Proof.
  intros Hk. destruct a as [|r|d n data|off v]; simpl; try done.
  intros [-> Hn]. split; [|done].
  rewrite <- (ChaCha20Facts.crypto_stream_chacha20_key_prefix n _ (key cfg)).
  rewrite <- (ChaCha20Facts.crypto_stream_chacha20_key_prefix n _ (key cfg')).
  by rewrite Hk.
Qed.

(** X8: the bytes copied into the child depend only on the first 32
    bytes of the key and on the sizes of the satisfied requests: two runs
    that agree on these deliver the same buffers, whatever the system
    calls, the addresses, the kernel's answers and the tracer's state. *)
Theorem same_key_same_sizes_same_bytes cfg cfg' oss oss' st st' :
  take crypto_stream_chacha20_KEYBYTES (key cfg)
  = take crypto_stream_chacha20_KEYBYTES (key cfg') →
  satisfied (trace_of (run cfg oss st))
  = satisfied (trace_of (run cfg' oss' st')) →
  delivered (trace_of (run cfg oss st))
  = delivered (trace_of (run cfg' oss' st')).
Proof.
  intros Hk Hs.
  pose proof (run_from_stream_start cfg oss st) as H1.
  pose proof (run_from_stream_start cfg' oss' st') as H2.
  eapply Forall_impl in H1;
    [|intros a; apply (from_stream_start_key cfg cfg' a Hk)].
  apply delivered_from_stream_start in H1 as [-> _].
  apply delivered_from_stream_start in H2 as [-> _].
  by rewrite Hs.
Qed.

Lemma same_key_same_sizes_same_bytes_witness :
  delivered (trace_of (run sample_config [getrandom_turn 4096 16]
                         (initial [])))
  = delivered (trace_of (run forging_config [read_turn 3 8192 16 5]
                           monitoring_3)).
Proof.
  apply (same_key_same_sizes_same_bytes sample_config forging_config
           [getrandom_turn 4096 16] [read_turn 3 8192 16 5]
           (initial []) monitoring_3).
  - reflexivity.
  - vm_compute. reflexivity.
Defined.

Lemma delivered_elem_of log data :
  data ∈ delivered log → ∃ d n, process_vm_writev d n data ∈ log.
Proof.
  unfold delivered. rewrite list_elem_of_omap.
  intros ([|r|d n data'|off v] & Hin & Hw); try done.
  injection Hw as ->. eauto.
Qed.

(** X9: of any two buffers delivered in a run the shorter is a prefix
    of the longer: a request receives the first bytes of what any larger
    request receives. *)
Theorem shorter_buffer_is_prefix_of_longer cfg oss st data1 data2 :
  data1 ∈ delivered (trace_of (run cfg oss st)) →
  data2 ∈ delivered (trace_of (run cfg oss st)) →
  (length data1 ≤ length data2)%nat →
  data1 = take (length data1) data2.
Proof.
  intros H1 H2 Hle.
  pose proof (run_from_stream_start cfg oss st) as Hall.
  rewrite Forall_forall in Hall.
  apply delivered_elem_of in H1 as (d1 & n1 & H1).
  apply delivered_elem_of in H2 as (d2 & n2 & H2).
  destruct (Hall _ H1) as [E1 Hn1]. destruct (Hall _ H2) as [E2 Hn2].
  simpl in E1, E2.
  assert (L1 : length data1 = Z.to_nat n1)
    by (rewrite E1; apply ChaCha20Facts.length_crypto_stream_chacha20).
  assert (L2 : length data2 = Z.to_nat n2)
    by (rewrite E2; apply ChaCha20Facts.length_crypto_stream_chacha20).
  rewrite L1, E1, E2.
  apply ChaCha20Facts.crypto_stream_chacha20_prefix. lia.
Qed.

Lemma shorter_buffer_is_prefix_of_longer_witness :
  crypto_stream_chacha20 8 nonce (key sample_config)
  = take (length (crypto_stream_chacha20 8 nonce (key sample_config)))
         (crypto_stream_chacha20 16 nonce (key sample_config)).
Proof.
  apply (shorter_buffer_is_prefix_of_longer sample_config two_requests
           (initial [])).
  - vm_compute. right. left.
  - vm_compute. left.
  - vm_compute. lia.
Defined.

(** * The passphrase *)

Lemma c_string_until_nul (p rest : list Z) :
  Forall (λ b, b ≠ 10) p → c_string (p ++ 0 :: rest) = first_line p.
Proof.
  induction 1 as [|b p Hb _ IH]; [done|].
  cbn [app c_string first_line]. rewrite IH.
  destruct (decide (b = 0)) as [->|Hz]; case_decide; try done.
  - exfalso. auto.
  - exfalso. destruct H; done.
Qed.

Lemma first_line_until_newline (p q : list Z) :
  Forall (λ b, b ≠ 10) p → first_line (p ++ 10 :: q) = first_line p.
Proof.
  induction 1 as [|b p Hb _ IH].
  - cbn [app first_line]. case_decide; [done|]. exfalso. auto.
  - cbn [app first_line]. case_decide; [done|]. by rewrite IH.
Qed.

(** Where the scan stops: at the first newline among the bytes read, or
    behind them. *)
Lemma find_newline_spec (pre bytes tail : list Z) :
  ∃ k, (k ≤ length bytes)%nat
    ∧ find_newline (pre ++ bytes ++ tail) (length pre) (length bytes)
      = (length pre + k)%nat
    ∧ Forall (λ b, b ≠ 10) (take k bytes)
    ∧ ((k < length bytes)%nat → bytes !! k = Some 10).
Proof.
  revert pre. induction bytes as [|b bytes IH]; intros pre.
  - exists O. simpl. split; [lia|]. split; [lia|]. split; [constructor|lia].
  - simpl. rewrite list_lookup_total_middle by done.
    destruct (decide (b = 10)) as [->|Hb].
    + exists O. simpl. split; [lia|]. split; [lia|].
      split; [constructor|done].
    + destruct (IH (pre ++ [b])) as (k & Hk & Hfind & Hall & Hnl).
      rewrite <- app_assoc, length_app in Hfind. simpl in Hfind.
      replace (length pre + 1)%nat with (S (length pre)) in Hfind by lia.
      exists (S k). simpl. split; [lia|]. split; [rewrite Hfind; lia|].
      split; [by constructor|]. intros ?. apply Hnl. lia.
Qed.

(** The string left in the array: the first line of the bytes read. *)
Lemma c_string_terminate_line (input buf : list Z) :
  (length input < length buf)%nat →
  c_string (terminate_line (store_input input buf (length input))
              (length input))
  = first_line input
  ∧ length (terminate_line (store_input input buf (length input))
              (length input)) = length buf.
Proof.
  intros Hlen. unfold terminate_line, store_input.
  rewrite firstn_all. split.
  - destruct (find_newline_spec [] input (drop (length input) buf))
      as (k & Hk & Hfind & Hall & Hnl).
    simpl in Hfind. rewrite Hfind.
    destruct (decide (k = length input)) as [->|Hne].
    + rewrite firstn_all in Hall.
      destruct (drop (length input) buf) as [|t tail] eqn:Hd.
      { apply (f_equal length) in Hd. rewrite length_drop in Hd.
        simpl in Hd. lia. }
      rewrite insert_app_r_alt by lia.
      replace (length input - length input)%nat with O by lia. simpl.
      by apply c_string_until_nul.
    + specialize (Hnl ltac:(lia)).
      rewrite insert_app_l by lia.
      rewrite <- (take_drop_middle _ _ _ Hnl).
      rewrite insert_app_r_alt by (rewrite length_take; lia).
      rewrite length_take.
      replace (k - k `min` length input)%nat with O by lia. simpl.
      rewrite <- app_assoc. simpl.
      rewrite c_string_until_nul by done.
      by rewrite first_line_until_newline.
  - rewrite length_insert, length_app, length_drop. lia.
Qed.

Lemma first_line_clean input :
  Forall (λ b, b ≠ 10 ∧ b ≠ 0) (first_line input)
  ∧ (length (first_line input) ≤ length input)%nat.
Proof.
  induction input as [|b input [IH1 IH2]]; simpl; [split; [constructor|lia]|].
  case_decide as Hb; simpl; [split; [constructor|lia]|].
  split; [|lia]. constructor; [|done]. split; intros ->; apply Hb; auto.
Qed.

Lemma first_line_of_line (s rest : list Z) :
  Forall (λ b, b ≠ 10 ∧ b ≠ 0) s → first_line (s ++ 10 :: rest) = s.
Proof.
  induction 1 as [|b s [Hb1 Hb2] _ IH]; cbn [app first_line].
  - case_decide; [done|]. exfalso. auto.
  - rewrite decide_False by (intros [?|?]; done). by rewrite IH.
Qed.

Lemma first_line_whole (s : list Z) :
  Forall (λ b, b ≠ 10 ∧ b ≠ 0) s → first_line s = s.
Proof.
  induction 1 as [|b s [Hb1 Hb2] _ IH]; cbn [first_line]; [done|].
  rewrite decide_False by (intros [?|?]; done). by rewrite IH.
Qed.

(** ** The key file *)

Lemma keyfile_gives_first_line_aux f buf :
  fopen_ok f = true → length buf = PASSPHRASE_MAX →
  fread_bytes f ≠ [] ∨ ferror_set f = false →
  ((∃ p, load_passphrase f buf = inr p)
   ↔ (length (fread_bytes f) < PASSPHRASE_MAX)%nat)
  ∧ ((PASSPHRASE_MAX ≤ length (fread_bytes f))%nat →
     load_passphrase f buf = inl (Fatal "passphase too long"))
  ∧ ∀ p, load_passphrase f buf = inr p →
         c_string p = first_line (fread_bytes f)
         ∧ length p = PASSPHRASE_MAX
         ∧ (length (c_string p) < PASSPHRASE_MAX)%nat
         ∧ Forall (λ b, b ≠ 10 ∧ b ≠ 0) (c_string p).
Proof.
  intros Hopen Hbuf Herr. unfold load_passphrase. rewrite Hopen. simpl.
  assert (Hne : bool_decide
                  ((length (fread_bytes f) `min` PASSPHRASE_MAX)%nat = O)
                && ferror_set f = false).
  { destruct Herr as [Hne| ->]; [|by rewrite andb_false_r].
    rewrite bool_decide_eq_false_2; [done|].
    destruct (fread_bytes f); [done|]. unfold PASSPHRASE_MAX. simpl. lia. }
  rewrite Hne.
  destruct (decide (length (fread_bytes f) < PASSPHRASE_MAX)%nat) as [Hlt|Hge].
  - rewrite Nat.min_l by lia. rewrite decide_False by lia.
    split; [split; [done|eauto]|]. split; [lia|].
    intros p [= <-].
    destruct (c_string_terminate_line (fread_bytes f) buf) as [Hc Hl];
      [lia|].
    rewrite Hc, Hl. split; [done|]. split; [done|].
    pose proof (first_line_clean (fread_bytes f)) as [? ?].
    split; [lia|done].
  - rewrite Nat.min_r by lia. rewrite decide_True by done.
    split; [split; [by intros [p ?]|lia]|]. split; [done|]. by intros p.
Qed.



(** A file of 1024 bytes whose first line is one byte long is refused. *)
Example long_keyfile_with_short_line :
  load_passphrase (file_holding (97 :: 10 :: replicate 1022 98))
    stack_garbage
  = inl (Fatal "passphase too long").
Proof. vm_compute. reflexivity. Qed.

(** X11: a passphrase without newline or NUL, written to a key file
    alone or followed by a newline and anything else, is read back
    unchanged, as long as the file has fewer than 1024 bytes. *)
Theorem keyfile_line_round_trip f buf s rest :
  fopen_ok f = true → length buf = PASSPHRASE_MAX →
  Forall (λ b, b ≠ 10 ∧ b ≠ 0) s →
  fread_bytes f = s ++ 10 :: rest ∨ fread_bytes f = s ∧ s ≠ [] →
  (length (fread_bytes f) < PASSPHRASE_MAX)%nat →
  ∃ p, load_passphrase f buf = inr p ∧ c_string p = s.
Proof.
  intros Hopen Hbuf Hs Hbytes Hlen.
  assert (Hne : fread_bytes f ≠ []).
  { destruct Hbytes as [->|[-> ?]]; [|done]. by destruct s. }
  destruct (keyfile_gives_first_line_aux f buf Hopen Hbuf (or_introl Hne))
    as ([_ Hex] & _ & Hp).
  destruct (Hex Hlen) as [p Hload]. exists p. split; [done|].
  destruct (Hp p Hload) as [-> _].
  destruct Hbytes as [->|[-> _]].
  - by apply first_line_of_line.
  - by apply first_line_whole.
Qed.

Lemma keyfile_line_round_trip_witness :
  ∃ p, load_passphrase
         (file_holding (bytes_of_string "secret" ++ 10 :: [1; 2; 3]))
         stack_garbage = inr p
       ∧ c_string p = bytes_of_string "secret".
Proof.
  apply (keyfile_line_round_trip
           (file_holding (bytes_of_string "secret" ++ 10 :: [1; 2; 3]))
           stack_garbage (bytes_of_string "secret") [1; 2; 3]).
  - reflexivity.
  - reflexivity.
  - repeat constructor; discriminate.
  - left. reflexivity.
  - vm_compute. lia.
Defined.

(** ** The terminal *)

Lemma get_passphrase_ok tty input buf len prompt :
  tty_answers tty input → length buf = len → (length input < len)%nat →
  ∃ buf',
    get_passphrase tty buf len prompt
    = ([ tty_open; tcsetattr false; tty_write prompt;
         tcsetattr (tty_echo tty); tty_write [10]; tty_close ], inr buf')
    ∧ c_string buf' = first_line input
    ∧ length buf' = len.
Proof.
  intros (H1 & H2 & H3 & H4) Hbuf Hlen.
  unfold get_passphrase. rewrite H1, H2, H3, H4. simpl.
  rewrite Nat.min_l by lia. rewrite decide_False by lia.
  eexists. split; [reflexivity|].
  destruct (c_string_terminate_line input buf) as [Hc Hl]; [lia|].
  by rewrite Hc, Hl.
Qed.

(** X12: at a terminal that answers, and for fewer than [len] bytes
    typed, [get_passphrase] opens the terminal, turns echo off, prompts,
    restores the echo flag it found, writes a newline and closes; the
    array then holds the bytes typed before the first newline or NUL,
    fewer than [len], whatever it held before. *)
Theorem passphrase_from_terminal tty input buf len prompt echo :
  tty_answers tty input → length buf = len → (length input < len)%nat →
  ∃ buf',
    get_passphrase tty buf len prompt
    = ([ tty_open; tcsetattr false; tty_write prompt;
         tcsetattr (tty_echo tty); tty_write [10]; tty_close ], inr buf')
    ∧ c_string buf' = first_line input
    ∧ (length (c_string buf') < len)%nat
    ∧ echo_after echo (get_passphrase tty buf len prompt).1 = tty_echo tty.
Proof.
  intros Htty Hbuf Hlen.
  destruct (get_passphrase_ok tty input buf len prompt Htty Hbuf Hlen)
    as (buf' & E & Hc & Hl).
  exists buf'. rewrite E. split; [done|]. split; [done|].
  split; [|done]. rewrite Hc.
  pose proof (first_line_clean input) as [_ ?]. lia.
Qed.

Lemma passphrase_from_terminal_witness :
  ∃ buf',
    get_passphrase (typing "secret") stack_garbage PASSPHRASE_MAX
      (bytes_of_string "passphrase: ")
    = ([ tty_open; tcsetattr false;
         tty_write (bytes_of_string "passphrase: ");
         tcsetattr (tty_echo (typing "secret")); tty_write [10]; tty_close ],
       inr buf')
    ∧ c_string buf' = first_line secret_line
    ∧ (length (c_string buf') < PASSPHRASE_MAX)%nat
    ∧ echo_after true
        (get_passphrase (typing "secret") stack_garbage PASSPHRASE_MAX
           (bytes_of_string "passphrase: ")).1
      = tty_echo (typing "secret").
Proof.
  apply (passphrase_from_terminal (typing "secret")
           secret_line stack_garbage PASSPHRASE_MAX
           (bytes_of_string "passphrase: ") true).
  - repeat split.
  - reflexivity.
  - vm_compute. lia.
Defined.

(** X13: when [read] on the terminal fails, or returns as many bytes as
    the array holds ("passphrase too long"), [get_passphrase] is fatal
    after it turned echo off and before it restores it: the terminal is
    left without echo, and is not closed. *)
Theorem long_passphrase_leaves_echo_off tty buf len prompt echo :
  tty_opens tty = true → prompt_written tty = true →
  (∃ input, tty_input tty = Some input ∧ (len ≤ length input)%nat)
  ∨ tty_input tty = None →
  ∃ msg,
    get_passphrase tty buf len prompt
    = ([tty_open; tcsetattr false; tty_write prompt], inl (Fatal msg))
    ∧ echo_after echo (get_passphrase tty buf len prompt).1 = false
    ∧ ((∃ input, tty_input tty = Some input) →
       msg = "passphrase too long"%string).
Proof.
  intros H1 H2 Hin. unfold get_passphrase. rewrite H1, H2. simpl.
  destruct Hin as [(input & -> & Hlen)| ->].
  - rewrite Nat.min_r by lia. rewrite decide_True by done.
    eexists. split; [reflexivity|]. split; [done|]. done.
  - eexists. split; [reflexivity|]. split; [done|]. by intros [? ?].
Qed.

Lemma long_passphrase_leaves_echo_off_witness :
  ∃ msg,
    get_passphrase
      {| tty_opens := true; tty_echo := true; prompt_written := true;
         tty_input := Some (replicate 1024 97); newline_written := true |}
      stack_garbage PASSPHRASE_MAX (bytes_of_string "passphrase: ")
    = ([ tty_open; tcsetattr false;
         tty_write (bytes_of_string "passphrase: ") ], inl (Fatal msg))
    ∧ echo_after true
        (get_passphrase
           {| tty_opens := true; tty_echo := true; prompt_written := true;
              tty_input := Some (replicate 1024 97);
              newline_written := true |}
           stack_garbage PASSPHRASE_MAX (bytes_of_string "passphrase: ")).1
      = false
    ∧ ((∃ input,
          tty_input
            {| tty_opens := true; tty_echo := true; prompt_written := true;
               tty_input := Some (replicate 1024 97);
               newline_written := true |} = Some input) →
       msg = "passphrase too long"%string).
Proof.
  apply (long_passphrase_leaves_echo_off
           {| tty_opens := true; tty_echo := true; prompt_written := true;
              tty_input := Some (replicate 1024 97);
              newline_written := true |}
           stack_garbage PASSPHRASE_MAX (bytes_of_string "passphrase: ")
           true).
  - reflexivity.
  - reflexivity.
  - left. exists (replicate 1024 97). split; [reflexivity|].
    vm_compute. lia.
Defined.

(** ** Confirmations *)

Lemma confirm_spec (tty : nat → tty_responses) (inp : nat → list Z)
    passphrase check i n :
  (∀ j, tty_answers (tty j) (inp j)
        ∧ (length (inp j) < PASSPHRASE_MAX)%nat) →
  length check = PASSPHRASE_MAX →
  ((∀ j, (i ≤ j < i + n)%nat → first_line (inp j) = c_string passphrase) →
   ∃ log, confirm tty passphrase check i n = (log, inr passphrase)
          ∧ length log = (6 * n)%nat)
  ∧ ((∃ j, (i ≤ j < i + n)%nat ∧ first_line (inp j) ≠ c_string passphrase) →
     ∃ log, confirm tty passphrase check i n
            = (log, inl (Fatal "passphrases don't match"))).
Proof.
  intros Htty. revert check i. induction n as [|n IH]; intros check i Hlen.
  { split; [intros _; by exists []|]. intros (j & ? & _). lia. }
  cbn [confirm].
  destruct (Htty i) as [Hans Hshort].
  destruct (get_passphrase_ok (tty i) (inp i) check PASSPHRASE_MAX
              (bytes_of_string "passphrase (again): ") Hans Hlen Hshort)
    as (check' & -> & Hc & Hl).
  unfold strcmp_eq. rewrite Hc.
  destruct (IH check' (S i) Hl) as [IHok IHbad].
  destruct (decide (c_string passphrase = first_line (inp i))) as [Heq|Hne].
  - rewrite bool_decide_eq_true_2 by done. split.
    + intros Hall. destruct IHok as (log & -> & Hlog).
      { intros j Hj. apply Hall. lia. }
      eexists. split; [reflexivity|]. rewrite length_app, Hlog. simpl. lia.
    + intros (j & Hj & Hbad). destruct IHbad as (log & ->); [|eauto].
      exists j. split; [|done].
      destruct (decide (j = i)) as [->|?]; [congruence|lia].
  - rewrite bool_decide_eq_false_2 by done. split.
    + intros Hall. exfalso. apply Hne. symmetry. apply Hall. lia.
    + intros _. eauto.
Qed.

(** X14: at a terminal that answers, the prompt is followed by
    [passphrase_repeat] confirmations; the passphrase is accepted exactly
    when the first line of every confirmation equals the first line of
    the first entry, otherwise the tracer is fatal with "passphrases
    don't match".  With [passphrase_repeat] zero or negative a single
    entry is accepted without confirmation. *)
Theorem confirmations_must_match (tty : nat → tty_responses)
    (inp : nat → list Z) passphrase_repeat passphrase check :
  (∀ j, tty_answers (tty j) (inp j)
        ∧ (length (inp j) < PASSPHRASE_MAX)%nat) →
  length passphrase = PASSPHRASE_MAX → length check = PASSPHRASE_MAX →
  ((∀ j, (1 ≤ j ≤ Z.to_nat passphrase_repeat)%nat →
         first_line (inp j) = first_line (inp O)) →
   ∃ log p,
     prompt_passphrase tty passphrase_repeat passphrase check = (log, inr p)
     ∧ c_string p = first_line (inp O)
     ∧ length log = (6 * (1 + Z.to_nat passphrase_repeat))%nat)
  ∧ ((∃ j, (1 ≤ j ≤ Z.to_nat passphrase_repeat)%nat
           ∧ first_line (inp j) ≠ first_line (inp O)) →
     ∃ log,
       prompt_passphrase tty passphrase_repeat passphrase check
       = (log, inl (Fatal "passphrases don't match")))
  ∧ (passphrase_repeat ≤ 0 →
     ∃ log p,
       prompt_passphrase tty passphrase_repeat passphrase check
       = (log, inr p)
       ∧ c_string p = first_line (inp O) ∧ length log = 6%nat).
Proof.
  intros Htty Hp Hc.
  destruct (Htty O) as [Hans Hshort].
  unfold prompt_passphrase.
  destruct (get_passphrase_ok (tty O) (inp O) passphrase PASSPHRASE_MAX
              (bytes_of_string "passphrase: ") Hans Hp Hshort)
    as (p & -> & Hcp & Hl).
  destruct (confirm_spec tty inp p check 1 (Z.to_nat passphrase_repeat)
              Htty Hc) as [Hok Hbad].
  rewrite Hcp in Hok, Hbad.
  split; [|split].
  - intros Hall. destruct Hok as (log & -> & Hlog).
    { intros j Hj. apply Hall. lia. }
    eexists _, p. split; [reflexivity|]. split; [done|].
    rewrite length_app, Hlog. simpl. lia.
  - intros (j & Hj & Hne). destruct Hbad as (log & ->); [|eauto].
    exists j. split; [lia|done].
  - intros Hle. destruct Hok as (log & -> & Hlog).
    { intros j Hj. lia. }
    eexists _, p. split; [reflexivity|]. split; [done|].
    rewrite length_app, Hlog. simpl. lia.
Qed.

Lemma confirmations_must_match_witness :
  ((∀ j, (1 ≤ j ≤ Z.to_nat 1)%nat →
         first_line secret_line
         = first_line secret_line) →
   ∃ log p,
     prompt_passphrase (λ _, typing "secret") 1 stack_garbage stack_garbage
     = (log, inr p)
     ∧ c_string p = first_line secret_line
     ∧ length log = (6 * (1 + Z.to_nat 1))%nat)
  ∧ ((∃ j, (1 ≤ j ≤ Z.to_nat 1)%nat
           ∧ first_line secret_line
             ≠ first_line secret_line) →
     ∃ log,
       prompt_passphrase (λ _, typing "secret") 1 stack_garbage
         stack_garbage
       = (log, inl (Fatal "passphrases don't match")))
  ∧ (1 ≤ 0 →
     ∃ log p,
       prompt_passphrase (λ _, typing "secret") 1 stack_garbage
         stack_garbage = (log, inr p)
       ∧ c_string p = first_line secret_line
       ∧ length log = 6%nat).
Proof.
  apply (confirmations_must_match (λ _, typing "secret")
           (λ _, bytes_of_string "secret" ++ [10]) 1 stack_garbage
           stack_garbage).
  - intros j. split; [repeat split|vm_compute; lia].
  - reflexivity.
  - reflexivity.
Defined.

(** A confirmation that differs is refused. *)
Example mistyped_confirmation :
  (prompt_passphrase
     (λ i, match i with O => typing "secret" | _ => typing "secrey" end)
     1 stack_garbage stack_garbage).2
  = inl (Fatal "passphrases don't match").
Proof. vm_compute. reflexivity. Qed.

(** * The options *)

Lemma set_option_inr g o :
  ¬ stops_parsing g → ∃ o', set_option g o = inr o'.
Proof.
  unfold stops_parsing. destruct g; simpl; eauto; intros H; exfalso; auto.
Qed.

(** X15: the first [-h] or unrecognised option decides: [-h] ends the
    program with success, an unrecognised option with failure, and the
    options after it are not looked at; options before it do not end the
    program. *)
Theorem first_help_or_unknown_option_decides pre g post o :
  Forall (λ g, ¬ stops_parsing g) pre →
  (g = opt_h → parse_options (pre ++ g :: post) o = inl (Exit EXIT_SUCCESS))
  ∧ (g = opt_unknown →
     parse_options (pre ++ g :: post) o = inl (Exit EXIT_FAILURE))
  ∧ ∃ o', parse_options pre o = inr o'.
Proof.
  intros Hpre. revert o. induction Hpre as [|x pre Hx _ IH]; intros o.
  - split; [by intros ->|]. split; [by intros ->|]. by exists o.
  - destruct (set_option_inr x o Hx) as [o' Ho].
    cbn [app parse_options]. rewrite Ho. apply IH.
Qed.

Lemma first_help_or_unknown_option_decides_witness :
  (opt_h = opt_h →
   parse_options ([opt_v; opt_p None] ++ opt_h :: [opt_unknown])
     default_options = inl (Exit EXIT_SUCCESS))
  ∧ (opt_h = opt_unknown →
     parse_options ([opt_v; opt_p None] ++ opt_h :: [opt_unknown])
       default_options = inl (Exit EXIT_FAILURE))
  ∧ ∃ o', parse_options [opt_v; opt_p None] default_options = inr o'.
Proof.
  apply (first_help_or_unknown_option_decides [opt_v; opt_p None] opt_h
           [opt_unknown] default_options).
  repeat constructor; intros [?|?]; discriminate.
Defined.

Lemma parse_options_app gs1 gs2 o :
  parse_options (gs1 ++ gs2) o
  = match parse_options gs1 o with
    | inl h => inl h
    | inr o' => parse_options gs2 o'
    end.
Proof.
  revert o. induction gs1 as [|g gs1 IH]; intros o; [done|].
  cbn [app parse_options]. destruct (set_option g o); [done|]. apply IH.
Qed.

(** Options that are not given leave their variables alone. *)
Lemma parse_options_keeps gs o :
  Forall (λ g, ¬ stops_parsing g) gs →
  ∃ o',
    parse_options gs o = inr o'
    ∧ (Forall (λ g, ∀ a, g ≠ opt_p a) gs → o_fake_pid o' = o_fake_pid o)
    ∧ (Forall (λ g, ∀ a, g ≠ opt_n a) gs →
       o_passphrase_repeat o' = o_passphrase_repeat o)
    ∧ (Forall (λ g, ∀ a, g ≠ opt_k a) gs → o_keyfile o' = o_keyfile o).
Proof.
  intros Hgs. revert o. induction Hgs as [|g gs Hg _ IH]; intros o.
  - exists o. done.
  - destruct (set_option_inr g o Hg) as [o1 Ho1].
    destruct (IH o1) as (o' & Hp & Hpid & Hn & Hk).
    exists o'. cbn [parse_options]. rewrite Ho1. split; [done|].
    split; [|split].
    + intros Hall. apply Forall_cons in Hall as [H1 H2].
      rewrite (Hpid H2). destruct g; simpl in Ho1; try done;
        injection Ho1 as <-; try done. by specialize (H1 optarg).
    + intros Hall. apply Forall_cons in Hall as [H1 H2].
      rewrite (Hn H2). destruct g; simpl in Ho1; try done;
        injection Ho1 as <-; try done. by specialize (H1 optarg).
    + intros Hall. apply Forall_cons in Hall as [H1 H2].
      rewrite (Hk H2). destruct g; simpl in Ho1; try done;
        injection Ho1 as <-; try done. by specialize (H1 optarg).
Qed.

(** X16: when no option ends the parsing, of several [-p], [-n] or [-k]
    the last one given sets the value. *)
Theorem last_option_wins pre g post o :
  Forall (λ g, ¬ stops_parsing g) (pre ++ g :: post) →
  ∃ o',
    parse_options (pre ++ g :: post) o = inr o'
    ∧ (∀ a, g = opt_p a → Forall (λ g, ∀ a, g ≠ opt_p a) post →
            o_fake_pid o' = option_p a)
    ∧ (∀ a, g = opt_n a → Forall (λ g, ∀ a, g ≠ opt_n a) post →
            o_passphrase_repeat o' = c_int (strtol10 (bytes_of_string a)))
    ∧ (∀ a, g = opt_k a → Forall (λ g, ∀ a, g ≠ opt_k a) post →
            o_keyfile o' = Some a).
Proof.
  intros Hall. apply Forall_app in Hall as [Hpre Hrest].
  apply Forall_cons in Hrest as [Hg Hpost].
  destruct (parse_options_keeps pre o Hpre) as (o1 & E1 & _).
  destruct (set_option_inr g o1 Hg) as [o2 E2].
  destruct (parse_options_keeps post o2 Hpost) as (o' & E3 & Hpid & Hn & Hk).
  exists o'. rewrite parse_options_app, E1. cbn [parse_options].
  rewrite E2. split; [done|].
  split; [|split]; intros a -> Hno; simpl in E2; injection E2 as <-.
  - by rewrite (Hpid Hno).
  - by rewrite (Hn Hno).
  - by rewrite (Hk Hno).
Qed.

Lemma last_option_wins_witness :
  ∃ o',
    parse_options ([opt_p (Some "7"%string)] ++ opt_p None :: [opt_v])
      default_options = inr o'
    ∧ (∀ a, opt_p None = opt_p a → Forall (λ g, ∀ a, g ≠ opt_p a) [opt_v] →
            o_fake_pid o' = option_p a)
    ∧ (∀ a, opt_p None = opt_n a → Forall (λ g, ∀ a, g ≠ opt_n a) [opt_v] →
            o_passphrase_repeat o' = c_int (strtol10 (bytes_of_string a)))
    ∧ (∀ a, opt_p None = opt_k a → Forall (λ g, ∀ a, g ≠ opt_k a) [opt_v] →
            o_keyfile o' = Some a).
Proof.
  apply (last_option_wins [opt_p (Some "7"%string)] (opt_p None) [opt_v]
           default_options).
  repeat constructor; intros [?|?]; discriminate.
Defined.

(** X17: when no option ends the parsing, an option that is not given
    leaves its default: without [-p] no PID is forged ([fake_pid] is
    -1), without [-n] one confirmation is asked, without [-k] the
    passphrase is prompted for. *)
Theorem absent_options_keep_defaults gs :
  Forall (λ g, ¬ stops_parsing g) gs →
  ∃ o,
    parse_options gs default_options = inr o
    ∧ (Forall (λ g, ∀ a, g ≠ opt_p a) gs → o_fake_pid o = fake_pid_default)
    ∧ (Forall (λ g, ∀ a, g ≠ opt_n a) gs → o_passphrase_repeat o = 1)
    ∧ (Forall (λ g, ∀ a, g ≠ opt_k a) gs → o_keyfile o = None).
Proof. intros Hgs. by apply (parse_options_keeps gs default_options). Qed.

Lemma absent_options_keep_defaults_witness :
  ∃ o,
    parse_options [opt_v; opt_v] default_options = inr o
    ∧ (Forall (λ g, ∀ a, g ≠ opt_p a) [opt_v; opt_v] →
       o_fake_pid o = fake_pid_default)
    ∧ (Forall (λ g, ∀ a, g ≠ opt_n a) [opt_v; opt_v] →
       o_passphrase_repeat o = 1)
    ∧ (Forall (λ g, ∀ a, g ≠ opt_k a) [opt_v; opt_v] → o_keyfile o = None).
Proof.
  apply (absent_options_keep_defaults [opt_v; opt_v]).
  repeat constructor; intros [?|?]; discriminate.
Defined.
